(** * SkyPortal comment handlers

    A shallow embedding of [skyportal/handlers/api/comment.py]: the mention
    extractor [users_mentioned], the request handlers of [CommentHandler]
    ([get], [post], [put], [delete]) and of [CommentAttachmentHandler]
    ([get]), together with the properties of the comment pipeline that are
    stated about them.

    Python [str] values are sequences of Unicode code points and are modelled
    as [list N]; Python [bytes] values are modelled as [list byte]. *)

From Stdlib Require Import List NArith ZArith Bool Lia.
From Stdlib Require Import Strings.String Strings.Ascii Strings.Byte.
From Stdlib Require Import Permutation.
Import ListNotations.

Local Open Scope N_scope.

(** ** Strings *)

Module Str.

Definition str := list N.

(** Code points of an ASCII literal. *)
Definition lit (s : string) : str :=
  map N_of_ascii (list_ascii_of_string s).
Arguments lit s%_string.

Fixpoint eqb (a b : str) : bool :=
  match a, b with
  | [], [] => true
  | x :: a', y :: b' => (x =? y) && eqb a' b'
  | _, _ => false
  end.

Definition mem (c : N) (chars : str) : bool := existsb (N.eqb c) chars.

(** [s.replace(old, new)] for a one-character pattern [old]. *)
Definition replace_char (old : N) (new : str) (s : str) : str :=
  flat_map (fun c => if c =? old then new else [c]) s.

(** [str.isspace] on one code point: the characters [str.split()] cuts on. *)
Definition isspace (c : N) : bool :=
  ((9 <=? c) && (c <=? 13)) || ((28 <=? c) && (c <=? 32))
  || (c =? 133) || (c =? 160) || (c =? 5760)
  || ((8192 <=? c) && (c <=? 8202))
  || (c =? 8232) || (c =? 8233) || (c =? 8239) || (c =? 8287) || (c =? 12288).

(** Fields of [s] between the characters selected by [sep], empty fields
    dropped; [cur] holds the field being read, last character first. *)
Fixpoint fields_aux (sep : N -> bool) (cur : str) (s : str) : list str :=
  match s with
  | [] => match cur with [] => [] | _ => [rev cur] end
  | c :: s' =>
      if sep c then
        match cur with
        | [] => fields_aux sep [] s'
        | _ => rev cur :: fields_aux sep [] s'
        end
      else fields_aux sep (c :: cur) s'
  end.

(** [s.split()]: split on runs of whitespace. *)
Definition split_ws (s : str) : list str := fields_aux isspace [] s.

Fixpoint lstrip (chars : str) (s : str) : str :=
  match s with
  | [] => []
  | c :: s' => if mem c chars then lstrip chars s' else s
  end.

Definition rstrip (chars : str) (s : str) : str :=
  rev (lstrip chars (rev s)).

(** [s.strip(chars)] *)
Definition strip (chars : str) (s : str) : str :=
  rstrip chars (lstrip chars s).

(** [s.startswith(c)] for a one-character prefix. *)
Definition startswith_char (c : N) (s : str) : bool :=
  match s with
  | [] => false
  | x :: _ => x =? c
  end.

(** [s.startswith(p)] *)
Fixpoint startswith (p s : str) : bool :=
  match p, s with
  | [], _ => true
  | x :: p', y :: s' => (x =? y) && startswith p' s'
  | _ :: _, [] => false
  end.

(** First occurrence of the non-empty pattern [sep] in [s]: the text before it
    and the text after it. *)
Fixpoint find (sep s : str) : option (str * str) :=
  if startswith sep s then Some ([], skipn (List.length sep) s)
  else
    match s with
    | [] => None
    | c :: s' =>
        match find sep s' with
        | Some (a, b) => Some (c :: a, b)
        | None => None
        end
    end.

(** [s.split(sep)] for a non-empty [sep]: cut at each occurrence found
    scanning from the left.  [fuel] bounds the number of cuts. *)
Fixpoint split_fuel (fuel : nat) (sep s : str) : list str :=
  match find sep s with
  | None => [s]
  | Some (a, b) =>
      match fuel with
      | O => [s]
      | S f => a :: split_fuel f sep b
      end
  end.

Definition split (sep s : str) : list str := split_fuel (List.length s) sep s.

(** [l[-1]] on a list of strings. *)
Definition last_item (l : list str) : str := last l [].

(** [str.lower] on the ASCII letters. *)
Definition lower (s : str) : str :=
  map (fun c => if (65 <=? c) && (c <=? 90) then c + 32 else c) s.

(** [string.punctuation] *)
Definition punctuation_all : str :=
  [33; 34; 35; 36; 37; 38; 39; 40; 41; 42; 43; 44; 45; 46; 47;
   58; 59; 60; 61; 62; 63; 64; 91; 92; 93; 94; 95; 96; 123; 124; 125; 126].

Definition comma : N := 44.
Definition space : N := 32.
Definition hyphen : N := 45.
Definition at_sign : N := 64.

End Str.

Import Str.

(** ** The user directory and the mention extractor *)

Record User := mkUser { user_id : Z; username : str }.

Definition User_eqb (u v : User) : bool :=
  (user_id u =? user_id v)%Z && Str.eqb (username u) (username v).

(** [punctuation = string.punctuation.replace("-", "").replace("@", "")] *)
Definition punctuation : str :=
  replace_char at_sign [] (replace_char hyphen [] punctuation_all).

(** The loop of [users_mentioned]: the candidate usernames of [text]. *)
Fixpoint mention_loop (words : list str) (usernames : list str) : list str :=
  match words with
  | [] => usernames
  | word :: rest =>
      let word := strip punctuation word in
      if startswith_char at_sign word
      then mention_loop rest (usernames ++ [replace_char at_sign [] word])
      else mention_loop rest usernames
  end.

Definition mention_candidates (text : str) : list str :=
  mention_loop (split_ws (replace_char comma [space] text)) [].

(** [User.query.filter(User.username.in_(usernames)).all()] over the rows
    [directory] of the user table. *)
Definition query_users_by_username (directory : list User) (usernames : list str)
  : list User :=
  filter (fun u => existsb (Str.eqb (username u)) usernames) directory.

Definition users_mentioned (directory : list User) (text : str) : list User :=
  query_users_by_username directory (mention_candidates text).

(** ** Bytes, UTF-8 and base64 *)

Definition bytes := list byte.

(** Store into an [unsigned char]. *)
Definition to_byte (n : N) : byte :=
  match Byte.of_N (n mod 256) with
  | Some b => b
  | None => x00
  end.

Module Utf8.

(** UTF-8 form of one code point; surrogates and values above U+10FFFF have
    none. *)
Definition encode_char (c : N) : option bytes :=
  if c <? 128 then Some [to_byte c]
  else if c <? 2048 then
    Some [to_byte (N.lor 192 (N.shiftr c 6)); to_byte (N.lor 128 (N.land c 63))]
  else if c <? 65536 then
    if (55296 <=? c) && (c <=? 57343) then None
    else Some [to_byte (N.lor 224 (N.shiftr c 12));
               to_byte (N.lor 128 (N.land (N.shiftr c 6) 63));
               to_byte (N.lor 128 (N.land c 63))]
  else if c <? 1114112 then
    Some [to_byte (N.lor 240 (N.shiftr c 18));
          to_byte (N.lor 128 (N.land (N.shiftr c 12) 63));
          to_byte (N.lor 128 (N.land (N.shiftr c 6) 63));
          to_byte (N.lor 128 (N.land c 63))]
  else None.

(** [str.encode(s)]; [None] stands for [UnicodeEncodeError]. *)
Fixpoint encode (s : str) : option bytes :=
  match s with
  | [] => Some []
  | c :: s' =>
      match encode_char c, encode s' with
      | Some b, Some bs => Some (b ++ bs)
      | _, _ => None
      end
  end.

Definition continuation (b : byte) : option N :=
  let n := Byte.to_N b in
  if (128 <=? n) && (n <=? 191) then Some (N.land n 63) else None.

(** [b.decode()]; [None] stands for [UnicodeDecodeError]. *)
Fixpoint decode (bs : bytes) : option str :=
  match bs with
  | [] => Some []
  | b0 :: r0 =>
      let n0 := Byte.to_N b0 in
      if n0 <? 128 then option_map (cons n0) (decode r0)
      else if (194 <=? n0) && (n0 <=? 223) then
        match r0 with
        | b1 :: r1 =>
            match continuation b1 with
            | Some c1 =>
                option_map (cons (N.lor (N.shiftl (N.land n0 31) 6) c1)) (decode r1)
            | None => None
            end
        | _ => None
        end
      else if (224 <=? n0) && (n0 <=? 239) then
        match r0 with
        | b1 :: b2 :: r2 =>
            match continuation b1, continuation b2 with
            | Some c1, Some c2 =>
                let cp := N.lor (N.shiftl (N.land n0 15) 12) (N.lor (N.shiftl c1 6) c2) in
                if (cp <? 2048) || ((55296 <=? cp) && (cp <=? 57343)) then None
                else option_map (cons cp) (decode r2)
            | _, _ => None
            end
        | _ => None
        end
      else if (240 <=? n0) && (n0 <=? 244) then
        match r0 with
        | b1 :: b2 :: b3 :: r3 =>
            match continuation b1, continuation b2, continuation b3 with
            | Some c1, Some c2, Some c3 =>
                let cp := N.lor (N.shiftl (N.land n0 7) 18)
                            (N.lor (N.shiftl c1 12) (N.lor (N.shiftl c2 6) c3)) in
                if (cp <? 65536) || (1114111 <? cp) then None
                else option_map (cons cp) (decode r3)
            | _, _, _ => None
            end
        | _ => None
        end
      else None
  end.

End Utf8.

Module Base64.

Definition pad : N := 61.

(** The base64 alphabet (RFC 4648, table 1). *)
Definition alphabet : str :=
  lit "ABCDEFGHIJKLMNOPQRSTUVWXYZabcdefghijklmnopqrstuvwxyz0123456789+/".

Definition enc (i : N) : N := nth (N.to_nat i) alphabet pad.

(** [table_a2b_base64]: the value of an alphabet character. *)
Definition dec (c : N) : option N :=
  if (65 <=? c) && (c <=? 90) then Some (c - 65)
  else if (97 <=? c) && (c <=? 122) then Some (c - 71)
  else if (48 <=? c) && (c <=? 57) then Some (c + 4)
  else if c =? 43 then Some 62
  else if c =? 47 then Some 63
  else None.

(** The base64 text of a byte string: three bytes give four characters, a
    final group of one or two bytes is padded with [=]. *)
Fixpoint b64encode (bs : bytes) : str :=
  match bs with
  | [] => []
  | [a] =>
      let a := Byte.to_N a in
      [enc (N.shiftr a 2); enc (N.shiftl (N.land a 3) 4); pad; pad]
  | [a; b] =>
      let a := Byte.to_N a in
      let b := Byte.to_N b in
      [enc (N.shiftr a 2);
       enc (N.lor (N.shiftl (N.land a 3) 4) (N.shiftr b 4));
       enc (N.shiftl (N.land b 15) 2); pad]
  | a :: b :: c :: rest =>
      let a := Byte.to_N a in
      let b := Byte.to_N b in
      let c := Byte.to_N c in
      enc (N.shiftr a 2)
      :: enc (N.lor (N.shiftl (N.land a 3) 4) (N.shiftr b 4))
      :: enc (N.lor (N.shiftl (N.land b 15) 2) (N.shiftr c 6))
      :: enc (N.land c 63)
      :: b64encode rest
  end.

Definition emit (n : N) (r : option bytes) : option bytes :=
  option_map (cons (to_byte n)) r.

(** [binascii.a2b_base64] as [base64.b64decode] calls it (no validation):
    characters outside the alphabet are skipped, a pad sequence that
    completes a quad ends the input, and a quad left incomplete is an error
    ([None], for [binascii.Error]). *)
Fixpoint a2b_base64 (data : bytes) (quad_pos leftchar pads : N) : option bytes :=
  match data with
  | [] => if quad_pos =? 0 then Some [] else None
  | ch :: rest =>
      let this_ch := Byte.to_N ch in
      if this_ch =? pad then
        if 2 <=? quad_pos then
          if 4 <=? quad_pos + (pads + 1) then Some []
          else a2b_base64 rest quad_pos leftchar (pads + 1)
        else a2b_base64 rest quad_pos leftchar pads
      else
        match dec this_ch with
        | None => a2b_base64 rest quad_pos leftchar pads
        | Some v =>
            match quad_pos with
            | 0 => a2b_base64 rest 1 v 0
            | 1 => emit (N.lor (N.shiftl leftchar 2) (N.shiftr v 4))
                     (a2b_base64 rest 2 (N.land v 15) 0)
            | 2 => emit (N.lor (N.shiftl leftchar 4) (N.shiftr v 2))
                     (a2b_base64 rest 3 (N.land v 3) 0)
            | _ => emit (N.lor (N.shiftl leftchar 6) v)
                     (a2b_base64 rest 0 0 0)
            end
        end
  end.

End Base64.

(** ** Request data *)

(** A decoded JSON value, as [get_json] returns it. *)
#[local] Unset Elimination Schemes.
Inductive json :=
| JNull
| JBool (b : bool)
| JNum (z : Z)
| JStr (s : str)
| JArr (items : list json)
| JObj (fields : list (str * json)).
#[local] Set Elimination Schemes.

(** [d[key]] on a dict, [None] when the key is missing. *)
Fixpoint dict_get (key : str) (fields : list (str * json)) : option json :=
  match fields with
  | [] => None
  | (k, v) :: rest => if Str.eqb k key then Some v else dict_get key rest
  end.

(** [key in d] *)
Definition dict_has (key : str) (fields : list (str * json)) : bool :=
  match dict_get key fields with Some _ => true | None => false end.

(** The body of a POST request.  The fields are typed as the handler
    documents them; [None] is a key that is missing or null, which
    [data.get] and [data.pop(..., None)] do not tell apart.  The attachment is
    kept as the raw JSON value, [None] when the key is missing. *)
Record PostData := mkPostData {
  post_obj_id : option str;
  post_text : option str;
  post_group_ids : option (list Z);
  post_attachment : option json
}.

(** The body of a PUT request: [group_ids] and [attachment_bytes] are popped
    by the handler, the other fields go through the schema. *)
Record PutData := mkPutData {
  put_group_ids : option (list Z);
  put_attachment_bytes : option str;
  put_text : option (option str);
  put_attachment_name : option json
}.

(** ** The store *)

Module Group.
Record t := mk { id : Z }.
End Group.

Module Comment.
Record t := mk {
  id : Z;
  text : option str;
  obj_id : str;
  attachment_bytes : option bytes;
  attachment_name : json;
  author : User;
  groups : list Group.t
}.

Definition set_text (v : option str) (c : t) : t :=
  mk (id c) v (obj_id c) (attachment_bytes c) (attachment_name c) (author c) (groups c).
Definition set_attachment_bytes (v : option bytes) (c : t) : t :=
  mk (id c) (text c) (obj_id c) v (attachment_name c) (author c) (groups c).
Definition set_attachment_name (v : json) (c : t) : t :=
  mk (id c) (text c) (obj_id c) (attachment_bytes c) v (author c) (groups c).
Definition set_groups (v : list Group.t) (c : t) : t :=
  mk (id c) (text c) (obj_id c) (attachment_bytes c) (attachment_name c) (author c) v.
Definition set_id (v : Z) (c : t) : t :=
  mk v (text c) (obj_id c) (attachment_bytes c) (attachment_name c) (author c) (groups c).
End Comment.

Module UserNotification.
Record t := mk { user : User; text : str; url : str }.
End UserNotification.

(** What the push collaborator and the store are asked to do, in order. *)
Inductive event :=
| Committed
| Push (user_id : Z) (action : str)
| PushAll (action : str) (obj_key : str).

(** The durable state and the log of events. *)
Record World := mkWorld {
  users : list User;
  group_table : list Group.t;
  comments : list Comment.t;
  notifications : list UserNotification.t;
  next_comment_id : Z;
  events : list event
}.

(** The pending work of [DBSession()] within one request. *)
Record Session := mkSession {
  added_notifications : list UserNotification.t;
  added_comments : list Comment.t;
  dirty : list Comment.t;
  deleted : list Comment.t
}.

Definition empty_session : Session := mkSession [] [] [] [].

Inductive mode := Read | Update | Delete.

(** The external collaborators: the access policy, the store's verdict on a
    commit, the schema validation of an update and the key of an object. *)
Record Policy := mkPolicy {
  accessible_groups : User -> list Group.t;
  group_accessible : User -> Group.t -> bool;
  comment_accessible : User -> mode -> Comment.t -> bool;
  commit_ok : World -> Session -> bool;
  schema_errors : PutData -> option str;
  internal_key : str -> str
}.

(** ** Handler computations *)

Inductive exn :=
| AccessDenied
| NotFoundOrForbidden
| StoreError
| AttributeError
| TypeError
| ValueError
| UnicodeEncodeError
| UnicodeDecodeError
| BinasciiError.

Inductive result (A : Type) :=
| Ok (a : A)
| Raised (e : exn).
Arguments Ok {A} a.
Arguments Raised {A} e.

Definition M (A : Type) : Type := World * Session -> result A * (World * Session).

Definition ret {A} (a : A) : M A := fun st => (Ok a, st).
Definition raise {A} (e : exn) : M A := fun st => (Raised e, st).
Definition bind {A B} (m : M A) (k : A -> M B) : M B :=
  fun st =>
    match m st with
    | (Ok a, st') => k a st'
    | (Raised e, st') => (Raised e, st')
    end.

Notation "x <- m ;; k" := (bind m (fun x => k))
  (at level 61, m at next level, right associativity).
Notation "m ;;; k" := (bind m (fun _ => k))
  (at level 61, right associativity).

Definition get_world : M World := fun st => (Ok (fst st), st).
Definition modify_world (f : World -> World) : M unit :=
  fun st => (Ok tt, (f (fst st), snd st)).
Definition modify_session (f : Session -> Session) : M unit :=
  fun st => (Ok tt, (fst st, f (snd st))).

Fixpoint for_each {A} (l : list A) (body : A -> M unit) : M unit :=
  match l with
  | [] => ret tt
  | x :: rest => body x ;;; for_each rest body
  end.

(** A request runs against a fresh session, which is dropped at its end. *)
Definition run {A} (m : M A) (w : World) : result A * World :=
  let '(r, (w', _)) := m (w, empty_session) in (r, w').

(** Parts of an f-string: literal text and interpolated values. *)
Inductive fpart :=
| FLit (s : str)
| FVal (v : json).

Inductive payload :=
| NoData
| CommentData (c : Comment.t)
| CommentId (comment_id : Z)
| AttachmentData (commentId : Z) (attachment : str).

(** What a handler answers: [self.success], [self.error], or headers and a
    body written directly. *)
Inductive response :=
| Success (data : payload)
| Error (message : str)
| Written (headers : list (str * list fpart)) (body : bytes).

(** The error answers of the handlers. *)
Definition MissingField (field : str) : response :=
  Error (lit "Missing required field `" ++ field ++ lit "`").

Definition MalformedAttachment : response :=
  Error (lit "Malformed comment attachment").

Definition AttachmentConsistencyError : response :=
  Error (lit "This update leaves one of attachment name or attachment bytes null. Both fields must be filled, or both must be null.").

Definition FETCH_NOTIFICATIONS : str := lit "skyportal/FETCH_NOTIFICATIONS".
Definition REFRESH_SOURCE : str := lit "skyportal/REFRESH_SOURCE".

Definition log (e : event) : M unit :=
  modify_world (fun w =>
    mkWorld (users w) (group_table w) (comments w) (notifications w)
            (next_comment_id w) (events w ++ [e])).

(** [self.flow.push(user_id, action, {})] *)
Definition flow_push (user_id : Z) (action : str) : M unit :=
  log (Push user_id action).

(** [self.push_all(action=..., payload={'obj_key': ...})] *)
Definition push_all (action : str) (obj_key : str) : M unit :=
  log (PushAll action obj_key).

Definition session_add_notification (n : UserNotification.t) : M unit :=
  modify_session (fun s =>
    mkSession (added_notifications s ++ [n]) (added_comments s) (dirty s) (deleted s)).

Definition session_add_comment (c : Comment.t) : M unit :=
  modify_session (fun s =>
    mkSession (added_notifications s) (added_comments s ++ [c]) (dirty s) (deleted s)).

(** An attribute assignment on a persistent comment: its new state is
    pending in the session. *)
Definition session_update (c : Comment.t) : M unit :=
  modify_session (fun s =>
    mkSession (added_notifications s) (added_comments s)
              (filter (fun d => negb (Comment.id d =? Comment.id c)%Z) (dirty s) ++ [c])
              (deleted s)).

Definition session_delete (c : Comment.t) : M unit :=
  modify_session (fun s =>
    mkSession (added_notifications s) (added_comments s) (dirty s) (deleted s ++ [c])).

(** Identities handed out to new rows at commit. *)
Fixpoint assign_ids (next : Z) (cs : list Comment.t) : list Comment.t :=
  match cs with
  | [] => []
  | c :: rest => Comment.set_id next c :: assign_ids (next + 1) rest
  end.

Definition apply_dirty (ds : list Comment.t) (c : Comment.t) : Comment.t :=
  match List.find (fun d => (Comment.id d =? Comment.id c)%Z) ds with
  | Some d => d
  | None => c
  end.

Definition is_deleted (dl : list Comment.t) (c : Comment.t) : bool :=
  existsb (fun d => (Comment.id d =? Comment.id c)%Z) dl.

(** The world after the session has been written to the store. *)
Definition flush (s : Session) (w : World) : World :=
  mkWorld (users w) (group_table w)
    (filter (fun c => negb (is_deleted (deleted s) c))
            (map (apply_dirty (dirty s)) (comments w))
     ++ assign_ids (next_comment_id w) (added_comments s))
    (notifications w ++ added_notifications s)
    (next_comment_id w + Z.of_nat (List.length (added_comments s)))
    (events w ++ [Committed]).

(** ** Collaborators *)

Section Handlers.

Variable P : Policy.

(** The authenticated requester: [self.current_user], also
    [self.associated_user_object]. *)
Variable current_user : User.

(** Modelled from the spec: [Comment.get_if_accessible_by(comment_id, user,
    mode=..., raise_if_none=True)], the policy-checked fetch of the store
    collaborator, whose code is not among the sources.  It gives the comment
    when it exists and the policy grants [m] on it to the user, and fails
    with [NotFoundOrForbidden] when the comment is absent and when it is
    inaccessible alike. *)
Definition Comment_get_if_accessible_by (comment_id : Z) (user : User) (m : mode)
  : M Comment.t :=
  w <- get_world ;;
  match List.find (fun c => (Comment.id c =? comment_id)%Z) (comments w) with
  | Some c =>
      if comment_accessible P user m c then ret c else raise NotFoundOrForbidden
  | None => raise NotFoundOrForbidden
  end.

(** All-or-nothing resolution of a list of group ids. *)
Fixpoint resolve_groups (user : User) (table : list Group.t) (ids : list Z)
  : option (list Group.t) :=
  match ids with
  | [] => Some []
  | i :: rest =>
      match List.find (fun g => (Group.id g =? i)%Z) table with
      | Some g =>
          if group_accessible P user g
          then option_map (cons g) (resolve_groups user table rest)
          else None
      | None => None
      end
  end.

(** Modelled from the spec: [Group.get_if_accessible_by(group_ids, user,
    raise_if_none=True)], whose code is not among the sources.  Each id must
    resolve to a group the requester may grant visibility to; an id that
    does not fails the whole resolution with [AccessDenied]. *)
Definition Group_get_if_accessible_by (group_ids : list Z) (user : User)
  : M (list Group.t) :=
  w <- get_world ;;
  match resolve_groups user (group_table w) group_ids with
  | Some gs => ret gs
  | None => raise AccessDenied
  end.

(** Modelled from the spec: [self.verify_and_commit()], the transactional
    commit primitive of the store, whose code is not among the sources.  It
    writes the whole session or nothing, and fails with [StoreError].  The
    comments inserted are returned with the identities the store gave them. *)
Definition verify_and_commit : M (list Comment.t) :=
  fun st =>
    let '(w, s) := st in
    if commit_ok P w s
    then (Ok (assign_ids (next_comment_id w) (added_comments s)),
          (flush s w, empty_session))
    else (Raised StoreError, (w, empty_session)).

(** Modelled from the spec: [schema.load(data, partial=True)] on the schema
    of [Comment], whose code is not among the sources.  A partial update:
    the fields present in the data are set on the comment; [inl] carries the
    messages of a [ValidationError]. *)
Definition schema_load (data : PutData) (c : Comment.t) : str + Comment.t :=
  match schema_errors P data with
  | Some messages => inl messages
  | None =>
      let c := match put_text data with
               | Some v => Comment.set_text v c
               | None => c
               end in
      let c := match put_attachment_name data with
               | Some v => Comment.set_attachment_name v c
               | None => c
               end in
      inr c
  end.

(** ** The attachment of a POST request *)

Inductive decoded :=
| Decoded (attachment_bytes : option bytes) (attachment_name : json)
| Malformed
| DecodeRaised (e : exn).

(** [s.split('base64,')[-1]] *)
Definition after_base64_marker (s : str) : str :=
  last_item (split (lit "base64,") s).

(** Lines 124 to 137 of [post]. *)
Definition decode_attachment (attachment : option json) : decoded :=
  match attachment with
  | Some a =>
      match a with
      | JObj fields =>
          if dict_has (lit "body") fields && dict_has (lit "name") fields then
            match dict_get (lit "body") fields, dict_get (lit "name") fields with
            | Some (JStr body), Some name =>
                match Utf8.encode (after_base64_marker body) with
                | Some attachment_bytes => Decoded (Some attachment_bytes) name
                | None => DecodeRaised UnicodeEncodeError
                end
            | _, _ => DecodeRaised AttributeError
            end
          else Malformed
      | _ => Malformed
      end
  | None => Decoded None JNull
  end.

(** ** CommentHandler *)

Definition mention_text (obj_id : str) : str :=
  lit "*@" ++ username current_user
  ++ lit "* mentioned you in a comment on *" ++ obj_id ++ lit "*".

Definition mention_url (obj_id : str) : str := lit "/source/" ++ obj_id.

Definition mention_notification (obj_id : str) (user_mentioned : User)
  : UserNotification.t :=
  UserNotification.mk user_mentioned (mention_text obj_id) (mention_url obj_id).

(** [users_mentioned(comment_text)] as [post] calls it: a missing text is
    [None], which has no [replace]. *)
Definition users_mentioned_in (comment_text : option str) : M (list User) :=
  match comment_text with
  | Some text => w <- get_world ;; ret (users_mentioned (users w) text)
  | None => raise AttributeError
  end.

Definition get (comment_id : Z) : M response :=
  comment <- Comment_get_if_accessible_by comment_id current_user Read ;;
  ret (Success (CommentData comment)).

Definition post (data : PostData) : M response :=
  match post_obj_id data with
  | None => ret (MissingField (lit "obj_id"))
  | Some obj_id =>
      let comment_text := post_text data in
      groups <-
        match post_group_ids data with
        | None | Some [] => ret (accessible_groups P current_user)
        | Some group_ids => Group_get_if_accessible_by group_ids current_user
        end ;;
      match decode_attachment (post_attachment data) with
      | Malformed => ret MalformedAttachment
      | DecodeRaised e => raise e
      | Decoded attachment_bytes attachment_name =>
          let author := current_user in
          let comment :=
            Comment.mk 0 comment_text obj_id attachment_bytes attachment_name
                       author groups in
          users_mentioned_in_comment <- users_mentioned_in comment_text ;;
          for_each users_mentioned_in_comment (fun user_mentioned =>
            session_add_notification (mention_notification obj_id user_mentioned)) ;;;
          session_add_comment comment ;;;
          inserted <- verify_and_commit ;;
          for_each users_mentioned_in_comment (fun user_mentioned =>
            flow_push (user_id user_mentioned) FETCH_NOTIFICATIONS) ;;;
          push_all REFRESH_SOURCE (internal_key P obj_id) ;;;
          ret (Success (CommentId (Comment.id (last inserted comment))))
      end
  end.

Definition is_none_json (v : json) : bool :=
  match v with JNull => true | _ => false end.

Definition is_none {A} (v : option A) : bool :=
  match v with None => true | Some _ => false end.

Definition put (comment_id : Z) (data : PutData) : M response :=
  c <- Comment_get_if_accessible_by comment_id current_user Update ;;
  let group_ids := put_group_ids data in
  let attachment_bytes := put_attachment_bytes data in
  match schema_load data c with
  | inl messages => ret (Error (lit "Invalid/missing parameters: " ++ messages))
  | inr c =>
      session_update c ;;;
      c <-
        match attachment_bytes with
        | Some attachment_bytes =>
            match Utf8.encode (after_base64_marker attachment_bytes) with
            | Some attachment_bytes =>
                let c := Comment.set_attachment_bytes (Some attachment_bytes) c in
                session_update c ;;; ret c
            | None => raise UnicodeEncodeError
            end
        | None => ret c
        end ;;
      let bytes_is_none := is_none (Comment.attachment_bytes c) in
      let name_is_none := is_none_json (Comment.attachment_name c) in
      if xorb bytes_is_none name_is_none then
        ret AttachmentConsistencyError
      else
        c <-
          match group_ids with
          | Some group_ids =>
              groups <- Group_get_if_accessible_by group_ids current_user ;;
              let c := Comment.set_groups groups c in
              session_update c ;;; ret c
          | None => ret c
          end ;;
        verify_and_commit ;;;
        push_all REFRESH_SOURCE (internal_key P (Comment.obj_id c)) ;;;
        ret (Success NoData)
  end.

Definition delete (comment_id : Z) : M response :=
  c <- Comment_get_if_accessible_by comment_id current_user Delete ;;
  let obj_key := internal_key P (Comment.obj_id c) in
  session_delete c ;;;
  verify_and_commit ;;;
  push_all REFRESH_SOURCE obj_key ;;;
  ret (Success NoData).

(** ** CommentAttachmentHandler *)

(** [distutils.util.strtobool]; [None] stands for [ValueError]. *)
Definition strtobool (val : str) : option bool :=
  let val := lower val in
  if existsb (Str.eqb val)
       [lit "y"; lit "yes"; lit "t"; lit "true"; lit "on"; lit "1"]
  then Some true
  else if existsb (Str.eqb val)
       [lit "n"; lit "no"; lit "f"; lit "false"; lit "off"; lit "0"]
  then Some false
  else None.

(** [base64.b64decode(s)]: [None] is not bytes-like. *)
Definition b64decode (s : option bytes) : M bytes :=
  match s with
  | None => raise TypeError
  | Some data =>
      match Base64.a2b_base64 data 0 0 0 with
      | Some b => ret b
      | None => raise BinasciiError
      end
  end.

(** [download_arg] is the query argument [download], [None] when not
    given. *)
Definition attachment_get (comment_id : Z) (download_arg : option str)
  : M response :=
  let argument := match download_arg with Some a => a | None => lit "True" end in
  match strtobool (lower argument) with
  | None => raise ValueError
  | Some download =>
      comment <- Comment_get_if_accessible_by comment_id current_user Read ;;
      verify_and_commit ;;;
      if download then
        let headers :=
          [(lit "Content-Disposition",
            [FLit (lit "attachment; "); FLit (lit "filename=");
             FVal (Comment.attachment_name comment)]);
           (lit "Content-type", [FLit (lit "application/octet-stream")])] in
        body <- b64decode (Comment.attachment_bytes comment) ;;
        ret (Written headers body)
      else
        raw <- b64decode (Comment.attachment_bytes comment) ;;
        match Utf8.decode raw with
        | Some attachment => ret (Success (AttachmentData comment_id attachment))
        | None => raise UnicodeDecodeError
        end
  end.

End Handlers.

(** ** The marker of a data URL *)

Definition marker : str := lit "base64,".

Definition comma_free (t : str) : bool := forallb (fun c => negb (c =? comma)) t.

(** The characters of [chars], and those outside it. *)
Definition all_in (chars : str) (s : str) : bool :=
  forallb (fun c => mem c chars) s.

Definition outside (chars : str) (c : N) : bool := negb (mem c chars).

(** ** Tokens, as the mention syntax describes them *)

(** The characters that separate the tokens of a comment: whitespace and the
    comma. *)
Definition mention_separator (c : N) : bool := isspace c || (c =? comma).

Definition free_of (sep : N -> bool) (w : str) : bool :=
  forallb (fun c => negb (sep c)) w.

(** The neighbour of a token, when there is one, is a separator. *)
Definition bounded (sep : N -> bool) (l : str) : Prop :=
  match l with
  | [] => True
  | c :: _ => sep c = true
  end.

(** [w] is a token of [s]: a maximal non-empty run of characters that are
    not separators. *)
Definition is_token (sep : N -> bool) (s w : str) : Prop :=
  w <> [] /\ free_of sep w = true /\
  exists pre post, s = pre ++ w ++ post /\ bounded sep (rev pre) /\ bounded sep post.

(** A token of [text] names [name]: stripped of its outer punctuation it
    starts with [@], and [name] is what is left without the [@]s. *)
Definition mentions (text name : str) : Prop :=
  exists token,
    is_token mention_separator text token /\
    startswith_char at_sign (strip punctuation token) = true /\
    name = replace_char at_sign [] (strip punctuation token).

(** ** Exhaustive checks over byte values *)

Definition range (n : nat) : list N := map N.of_nat (seq 0 n).

Module Base64Check.
Import Base64.

(** A value that the alphabet carries back and forth. *)
Definition sextet_ok (s : N) : bool :=
  match dec (enc s) with Some v => v =? s | None => false end
  && negb (enc s =? pad) && (enc s <? 128).

Definition check_first (a : N) : bool := sextet_ok (N.shiftr a 2).

Definition check_second (a b : N) : bool :=
  let s := N.lor (N.shiftl (N.land a 3) 4) (N.shiftr b 4) in
  sextet_ok s
  && (N.lor (N.shiftl (N.shiftr a 2) 2) (N.shiftr s 4) mod 256 =? a)
  && (N.land s 15 =? N.shiftr b 4).

Definition check_third (b c : N) : bool :=
  let s := N.lor (N.shiftl (N.land b 15) 2) (N.shiftr c 6) in
  sextet_ok s
  && (N.lor (N.shiftl (N.shiftr b 4) 4) (N.shiftr s 2) mod 256 =? b)
  && (N.land s 3 =? N.shiftr c 6).

Definition check_fourth (c : N) : bool :=
  let s := N.land c 63 in
  sextet_ok s && (N.lor (N.shiftl (N.shiftr c 6) 6) s mod 256 =? c).

Definition check_second_last (a : N) : bool :=
  let s := N.shiftl (N.land a 3) 4 in
  sextet_ok s
  && (N.lor (N.shiftl (N.shiftr a 2) 2) (N.shiftr s 4) mod 256 =? a).

Definition check_third_last (b : N) : bool :=
  let s := N.shiftl (N.land b 15) 2 in
  sextet_ok s
  && (N.lor (N.shiftl (N.shiftr b 4) 4) (N.shiftr s 2) mod 256 =? b).

End Base64Check.

(** ** Counting the events of a request *)

Definition is_user_push (e : event) : bool :=
  match e with Push _ _ => true | _ => false end.

Definition is_broadcast (e : event) : bool :=
  match e with PushAll _ _ => true | _ => false end.

(** The row of the comment table with a given identity. *)
Definition comment_row (w : World) (comment_id : Z) : option Comment.t :=
  List.find (fun c => (Comment.id c =? comment_id)%Z) (comments w).

(** Attachment name and bytes are both null or both filled. *)
Definition jointly_null (c : Comment.t) : bool :=
  negb (xorb (is_none (Comment.attachment_bytes c))
             (is_none_json (Comment.attachment_name c))).

(** ** The handlers, step by step *)

(** The groups a new comment is made visible to (lines 116 to 122 of
    [post]); [None] when an id does not resolve. *)
Definition post_groups (P : Policy) (user : User) (w : World)
    (group_ids : option (list Z)) : option (list Group.t) :=
  match group_ids with
  | None | Some [] => Some (accessible_groups P user)
  | Some ids => resolve_groups P user (group_table w) ids
  end.

(** The comment that [post] builds. *)
Definition new_comment (user : User) (obj_id : str) (comment_text : option str)
    (attachment_bytes : option bytes) (attachment_name : json)
    (groups : list Group.t) : Comment.t :=
  Comment.mk 0 comment_text obj_id attachment_bytes attachment_name user groups.

(** The session of [post] when it reaches the commit. *)
Definition post_session (user : User) (obj_id : str) (c : Comment.t)
    (mentioned : list User) : Session :=
  mkSession (map (mention_notification user obj_id) mentioned) [c] [] [].

Definition user_pushes (mentioned : list User) : list event :=
  map (fun u => Push (user_id u) FETCH_NOTIFICATIONS) mentioned.

(** The events of a successful [post], in order. *)
Definition post_events (P : Policy) (obj_id : str) (mentioned : list User)
  : list event :=
  Committed :: user_pushes mentioned
  ++ [PushAll REFRESH_SOURCE (internal_key P obj_id)].

(** The world a successful [post] leaves. *)
Definition post_world (P : Policy) (user : User) (w : World) (obj_id : str)
    (c : Comment.t) (mentioned : list User) : World :=
  mkWorld (users w) (group_table w)
    (comments w ++ [Comment.set_id (next_comment_id w) c])
    (notifications w ++ map (mention_notification user obj_id) mentioned)
    (next_comment_id w + 1)
    (events w ++ post_events P obj_id mentioned).

(** The state of the comment that [put] checks and commits: the fields of
    the request applied to the stored comment (lines 216 to 226);
    [None] when the request is turned down before the check. *)
Definition resulting_state (P : Policy) (data : PutData) (c : Comment.t)
  : option Comment.t :=
  match schema_load P data c with
  | inl _ => None
  | inr c =>
      match put_attachment_bytes data with
      | Some body =>
          option_map (fun b => Comment.set_attachment_bytes (Some b) c)
                     (Utf8.encode (after_base64_marker body))
      | None => Some c
      end
  end.

(** The table of comments with the row of [c] replaced by [c]. *)
Definition replace_row (c : Comment.t) (rows : list Comment.t) : list Comment.t :=
  map (fun r => if (Comment.id c =? Comment.id r)%Z then c else r) rows.

(** The world a successful [put] leaves. *)
Definition put_world (P : Policy) (w : World) (c : Comment.t) : World :=
  mkWorld (users w) (group_table w) (replace_row c (comments w))
    (notifications w) (next_comment_id w)
    (events w ++ [Committed; PushAll REFRESH_SOURCE (internal_key P (Comment.obj_id c))]).

(** The commit of [put] for the pending state [c] of a comment. *)
Definition put_commit (P : Policy) (w : World) (c : Comment.t)
  : result response * World :=
  if commit_ok P w (mkSession [] [] [c] [])
  then (Ok (Success NoData), put_world P w c)
  else (Raised StoreError, w).

(** The world a successful [delete] leaves. *)
Definition delete_world (P : Policy) (w : World) (c : Comment.t) : World :=
  mkWorld (users w) (group_table w)
    (filter (fun r => negb (Comment.id c =? Comment.id r)%Z) (comments w))
    (notifications w) (next_comment_id w)
    (events w ++ [Committed; PushAll REFRESH_SOURCE (internal_key P (Comment.obj_id c))]).

(** A comment fetched under the policy, [None] when it is absent or
    inaccessible. *)
Definition fetch (P : Policy) (user : User) (m : mode) (w : World)
    (comment_id : Z) : option Comment.t :=
  match comment_row w comment_id with
  | Some c => if comment_accessible P user m c then Some c else None
  | None => None
  end.

(** The query argument [download] as [attachment_get] reads it. *)
Definition download_flag (download_arg : option str) : option bool :=
  strtobool (lower (match download_arg with Some a => a | None => lit "True" end)).

(** The headers of a download. *)
Definition download_headers (c : Comment.t) : list (str * list fpart) :=
  [(lit "Content-Disposition",
    [FLit (lit "attachment; "); FLit (lit "filename=");
     FVal (Comment.attachment_name c)]);
   (lit "Content-type", [FLit (lit "application/octet-stream")])].

(** The world after a commit that had nothing to write. *)
Definition committed (w : World) : World :=
  mkWorld (users w) (group_table w) (comments w) (notifications w)
          (next_comment_id w) (events w ++ [Committed]).

(** ** A small deployment, for the examples *)

Definition alice := mkUser 1 (lit "alice").
Definition bob := mkUser 2 (lit "bob").
Definition jane_doe := mkUser 3 (lit "jane-doe").

Definition g1 := Group.mk 1.
Definition g2 := Group.mk 2.
Definition g3 := Group.mk 3.

(** alice belongs to groups 1 and 2, bob to group 2, jane-doe to none. *)
Definition demo_groups (u : User) : list Group.t :=
  if (user_id u =? 1)%Z then [g1; g2]
  else if (user_id u =? 2)%Z then [g2]
  else [].

Definition demo_group_accessible (u : User) (g : Group.t) : bool :=
  existsb (fun h => (Group.id h =? Group.id g)%Z) (demo_groups u).

(** A comment is read by the members of its groups, changed by its author. *)
Definition demo_comment_accessible (u : User) (m : mode) (c : Comment.t) : bool :=
  match m with
  | Read => existsb (demo_group_accessible u) (Comment.groups c)
  | Update | Delete => (user_id u =? user_id (Comment.author c))%Z
  end.

Definition demo_policy : Policy :=
  mkPolicy demo_groups demo_group_accessible demo_comment_accessible
           (fun _ _ => true) (fun _ => None) (fun obj_id => obj_id).

Definition first_comment : Comment.t :=
  Comment.mk 1 (Some (lit "first light")) (lit "ZTF21aaa") None JNull alice [g1].

Definition demo_world : World :=
  mkWorld [alice; bob; jane_doe] [g1; g2; g3] [first_comment] [] 2 [].

(** Requests on the deployment. *)
Definition mention_request : PostData :=
  mkPostData (Some (lit "ZTF21aaa")) (Some (lit "hello @alice, @bob and @nobody"))
             None None.

Definition request_without_text : PostData :=
  mkPostData (Some (lit "ZTF21aaa")) None None None.

Definition text_attachment : json :=
  JObj [(lit "body", JStr (lit "data:text/plain;base64,aGk="));
        (lit "name", JStr (lit "note.txt"))].

Definition attachment_without_name : json :=
  JObj [(lit "body", JStr (lit "aGk="))].

(** The same deployment over a store that refuses every commit. *)
Definition refusing_policy : Policy :=
  mkPolicy demo_groups demo_group_accessible demo_comment_accessible
           (fun _ _ => false) (fun _ => None) (fun obj_id => obj_id).

(** The deployment before any comment was written. *)
Definition empty_world : World :=
  mkWorld [alice; bob; jane_doe] [g1; g2; g3] [] [] 1 [].

Definition attachment_request : PostData :=
  mkPostData (Some (lit "ZTF21aaa")) (Some (lit "spectrum attached"))
             None (Some text_attachment).

Definition rename_request : PutData :=
  mkPutData None None None (Some (JStr (lit "note.txt"))).

Definition attach_request : PutData :=
  mkPutData None (Some (lit "aGk=")) None (Some (JStr (lit "note.txt"))).

Definition edit_request : PutData :=
  mkPutData None None (Some (Some (lit "second light"))) None.

Definition plain_request : PostData :=
  mkPostData (Some (lit "ZTF21aaa")) (Some (lit "no groups here")) None None.

(** A group id resolved to a group of the table that the user may grant. *)
Definition resolved (P : Policy) (user : User) (table : list Group.t)
    (i : Z) (g : Group.t) : Prop :=
  Group.id g = i /\ In g table /\ group_accessible P user g = true.

(** * Properties *)

(** ** Strings *)

Lemma eqb_eq (a b : str) : Str.eqb a b = true <-> a = b.
Proof.
  revert b; induction a as [|x a IH]; intros [|y b]; simpl; split;
    try congruence; try reflexivity.
  - rewrite andb_true_iff, N.eqb_eq, IH. intros [-> ->]; reflexivity.
  - intros H; injection H as -> ->.
    rewrite andb_true_iff, N.eqb_eq, IH; split; reflexivity.
Qed.

Lemma eqb_refl (a : str) : Str.eqb a a = true.
Proof. apply eqb_eq; reflexivity. Qed.

Lemma free_of_In sep w c : free_of sep w = true -> In c w -> sep c = false.
Proof.
  unfold free_of; rewrite forallb_forall; intros H Hc.
  apply H in Hc. now apply negb_true_iff in Hc.
Qed.

Lemma free_of_app sep a b :
  free_of sep (a ++ b) = free_of sep a && free_of sep b.
Proof. apply forallb_app. Qed.

Lemma free_of_rev sep a : free_of sep (rev a) = free_of sep a.
Proof.
  induction a as [|x a IH]; simpl; [reflexivity|].
  rewrite free_of_app, IH; simpl. rewrite andb_true_r. apply andb_comm.
Qed.

(** Inside a run without separators nothing is bounded by a separator. *)
Lemma bounded_free sep u l rest :
  free_of sep u = true -> u = l ++ rest -> bounded sep (rev l) -> l = [].
Proof.
  intros Hu -> Hb. destruct (rev l) as [|c r] eqn:E.
  - rewrite <- (rev_involutive l), E; reflexivity.
  - simpl in Hb. assert (In c l) as Hc
      by (apply in_rev; rewrite E; left; reflexivity).
    rewrite (free_of_In sep (l ++ rest) c Hu) in Hb; [discriminate|].
    apply in_or_app; left; exact Hc.
Qed.

Lemma bounded_rev_cons sep u c l :
  sep c = true -> bounded sep (rev l) -> bounded sep (rev (u ++ c :: l)).
Proof.
  intros Hc Hb. rewrite rev_app_distr; simpl.
  destruct (rev l) as [|y r]; simpl; assumption.
Qed.

Lemma bounded_rev_tail sep u c l :
  bounded sep (rev (u ++ c :: l)) -> bounded sep (rev l).
Proof.
  rewrite rev_app_distr; simpl.
  destruct (rev l) as [|y r]; simpl; [trivial | auto].
Qed.

(** A text without separators is its own single token. *)
Lemma is_token_free sep u w :
  free_of sep u = true -> is_token sep u w <-> (w = u /\ u <> []).
Proof.
  intros Hu; split.
  - intros (Hne & Hw & pre & post & Heq & Hpre & Hpost).
    assert (pre = []) as -> by exact (bounded_free sep u pre _ Hu Heq Hpre).
    simpl in Heq. destruct post as [|c post].
    + rewrite app_nil_r in Heq; subst; auto.
    + simpl in Hpost.
      rewrite (free_of_In sep u c Hu) in Hpost; [discriminate|].
      rewrite Heq; apply in_or_app; right; left; reflexivity.
  - intros [-> Hne]. split; [assumption|split; [assumption|]].
    exists [], []; simpl; rewrite app_nil_r; auto.
Qed.

(** The tokens of a text that starts with a run [u] followed by a
    separator: [u], and the tokens of the rest. *)
Lemma is_token_cut sep u c s w :
  free_of sep u = true -> sep c = true ->
  is_token sep (u ++ c :: s) w <-> ((w = u /\ u <> []) \/ is_token sep s w).
Proof.
  intros Hu Hc; split.
  - intros (Hne & Hw & pre & post & Heq & Hpre & Hpost).
    apply app_eq_app in Heq as [l [[Hul Hrest] | [Hpl Hrest]]].
    + assert (pre = []) as -> by exact (bounded_free sep u pre _ Hu Hul Hpre).
      simpl in Hul; subst l. symmetry in Hrest.
      apply app_eq_app in Hrest as [l [[Hul Hrest] | [Hwl Hrest]]].
      * destruct l as [|x l].
        -- rewrite app_nil_r in Hul; subst; left; auto.
        -- simpl in Hpost. subst post. simpl in Hpost.
           rewrite (free_of_In sep u x Hu) in Hpost; [discriminate|].
           rewrite Hul; apply in_or_app; right; left; reflexivity.
      * destruct l as [|x l].
        -- rewrite app_nil_r in Hwl; subst; left; auto.
        -- injection Hrest as <- _.
           rewrite (free_of_In sep w c Hw) in Hc; [discriminate|].
           rewrite Hwl; apply in_or_app; right; left; reflexivity.
    + destruct l as [|x l].
      * simpl in Hrest. destruct w as [|y w]; [congruence|].
        injection Hrest as <- _.
        rewrite (free_of_In sep (c :: w) c Hw) in Hc; [discriminate|].
        left; reflexivity.
      * injection Hrest as <- Hs. right.
        split; [assumption|split; [assumption|]].
        exists l, post; split; [assumption|split; [|assumption]].
        subst pre. eapply bounded_rev_tail; eauto.
  - intros [[-> Hne] | (Hne & Hw & pre & post & Heq & Hpre & Hpost)].
    + split; [assumption|split; [assumption|]].
      exists [], (c :: s); simpl; auto.
    + split; [assumption|split; [assumption|]].
      exists (u ++ c :: pre), post. subst s.
      split; [now rewrite <- app_assoc|].
      split; [now apply bounded_rev_cons | assumption].
Qed.

(** The fields found by the scanner are the tokens of the text. *)
Lemma fields_aux_spec sep s : forall cur w,
  free_of sep cur = true ->
  In w (fields_aux sep cur s) <-> is_token sep (rev cur ++ s) w.
Proof.
  induction s as [|c s IH]; intros cur w Hcur.
  - rewrite app_nil_r, is_token_free by now rewrite free_of_rev.
    simpl. destruct cur as [|x cur]; simpl.
    + split; [tauto | intros [_ H]; congruence].
    + split.
      * intros [<- | []]. split; [reflexivity|].
        intros E. apply app_eq_nil in E as [_ E]; discriminate.
      * intros [-> _]; left; reflexivity.
  - simpl. destruct (sep c) eqn:Hc.
    + rewrite is_token_cut by (try rewrite free_of_rev; assumption).
      rewrite <- (IH [] w eq_refl). simpl.
      destruct cur as [|x cur].
      * simpl. split; [tauto | intros [[_ H] | H]; [congruence | assumption]].
      * simpl (In _ (_ :: _)). split.
        -- intros [<- | H]; [left; split; [reflexivity|] | right; assumption].
           simpl; intros E; apply app_eq_nil in E as [_ E]; discriminate.
        -- intros [[-> _] | H]; [left; reflexivity | right; assumption].
    + rewrite IH by (simpl; rewrite Hc; assumption).
      simpl. now rewrite <- app_assoc.
Qed.

(** Replacing the commas by spaces and splitting on whitespace is splitting
    on whitespace and commas. *)
Lemma fields_replace_comma s : forall cur,
  fields_aux isspace cur (replace_char comma [space] s)
  = fields_aux mention_separator cur s.
Proof.
  induction s as [|c s IH]; intros cur; [reflexivity|].
  unfold replace_char in *; simpl. unfold mention_separator at 1.
  destruct (c =? comma) eqn:E; simpl.
  - rewrite orb_true_r. now rewrite !IH.
  - rewrite orb_false_r. destruct (isspace c); now rewrite !IH.
Qed.

Lemma split_ws_tokens text w :
  In w (split_ws (replace_char comma [space] text))
  <-> is_token mention_separator text w.
Proof.
  unfold split_ws. rewrite fields_replace_comma.
  now rewrite fields_aux_spec.
Qed.

(** ** The mention extractor *)

Lemma mention_loop_spec words : forall usernames name,
  In name (mention_loop words usernames) <->
  In name usernames \/
  exists word, In word words /\
    startswith_char at_sign (strip punctuation word) = true /\
    name = replace_char at_sign [] (strip punctuation word).
Proof.
  induction words as [|word rest IH]; intros usernames name; simpl.
  - split; [auto | intros [H | (w & [] & _)]; assumption].
  - destruct (startswith_char at_sign (strip punctuation word)) eqn:E;
      rewrite IH; [rewrite in_app_iff; simpl|]; split.
    + intros [[H | [<- | []]] | (w & Hw & Hs & Hn)]; eauto 6.
    + intros [H | (w & [<- | Hw] & Hs & Hn)]; eauto 7.
    + intros [H | (w & Hw & Hs & Hn)]; eauto 6.
    + intros [H | (w & [<- | Hw] & Hs & Hn)]; eauto 6; congruence.
Qed.

Lemma mention_candidates_spec text name :
  In name (mention_candidates text) <-> mentions text name.
Proof.
  unfold mention_candidates, mentions. rewrite mention_loop_spec. split.
  - intros [[] | (w & Hw & Hs & Hn)].
    exists w. now rewrite <- split_ws_tokens.
  - intros (w & Hw & Hs & Hn). right.
    exists w. now rewrite split_ws_tokens.
Qed.

Lemma query_users_by_username_spec directory usernames u :
  In u (query_users_by_username directory usernames) <->
  In u directory /\ In (username u) usernames.
Proof.
  unfold query_users_by_username. rewrite filter_In, existsb_exists.
  split; intros [Hd H]; (split; [assumption|]).
  - destruct H as (n & Hn & E). apply eqb_eq in E. now subst.
  - exists (username u); split; [assumption | apply eqb_refl].
Qed.

Lemma users_mentioned_In directory text u :
  In u (users_mentioned directory text) <->
  In u directory /\ mentions text (username u).
Proof.
  unfold users_mentioned.
  now rewrite query_users_by_username_spec, mention_candidates_spec.
Qed.

Lemma users_mentioned_NoDup directory text :
  NoDup directory -> NoDup (users_mentioned directory text).
Proof. apply NoDup_filter. Qed.

Lemma mem_replace_char_nil c x s :
  mem c (replace_char x [] s) = mem c s && negb (c =? x).
Proof.
  unfold mem, replace_char. induction s as [|y s IH]; [reflexivity|].
  simpl. destruct (y =? x) eqn:E; simpl.
  - rewrite IH. apply N.eqb_eq in E; subst y.
    destruct (c =? x); simpl; [now rewrite andb_false_r | reflexivity].
  - rewrite IH. destruct (c =? y) eqn:E'; simpl; [|reflexivity].
    apply N.eqb_eq in E'; subst y. now rewrite E.
Qed.

(** The characters stripped from a token are those of [string.punctuation]
    other than the hyphen and the at-sign. *)
Lemma punctuation_spec c :
  mem c punctuation = true <->
  mem c punctuation_all = true /\ c <> hyphen /\ c <> at_sign.
Proof.
  unfold punctuation. rewrite !mem_replace_char_nil, !andb_true_iff.
  rewrite !negb_true_iff, !N.eqb_neq. tauto.
Qed.

Lemma lstrip_spec chars s :
  exists a, s = a ++ lstrip chars s
            /\ all_in chars a = true
            /\ bounded (outside chars) (lstrip chars s).
Proof.
  induction s as [|c s (a & Ha & Hin & Hb)]; simpl.
  - exists []; repeat split.
  - destruct (mem c chars) eqn:E.
    + exists (c :: a). simpl. rewrite E, Hin. repeat split; [|assumption].
      now rewrite <- Ha.
    + exists []. simpl. unfold outside. rewrite E. repeat split.
Qed.

Lemma all_in_rev chars s : all_in chars (rev s) = all_in chars s.
Proof.
  unfold all_in. induction s as [|c s IH]; simpl; [reflexivity|].
  rewrite forallb_app, IH. simpl. rewrite andb_true_r. apply andb_comm.
Qed.

(** What [strip] removes and what it keeps: characters of [chars] at both
    ends, up to the first and the last character outside [chars]. *)
Lemma strip_spec chars s :
  exists a b,
    s = a ++ strip chars s ++ b
    /\ all_in chars a = true /\ all_in chars b = true
    /\ bounded (outside chars) (strip chars s)
    /\ bounded (outside chars) (rev (strip chars s)).
Proof.
  unfold strip, rstrip.
  destruct (lstrip_spec chars s) as (a & Ha & Hina & Hba).
  destruct (lstrip_spec chars (rev (lstrip chars s))) as (b & Hb & Hinb & Hbb).
  set (l := lstrip chars s) in *. set (r := lstrip chars (rev l)) in *.
  assert (l = rev r ++ rev b) as Hl.
  { rewrite <- rev_app_distr, <- Hb. now rewrite rev_involutive. }
  exists a, (rev b). split; [now rewrite <- Hl|].
  split; [assumption|]. split; [now rewrite all_in_rev|]. split.
  - rewrite Hl in Hba. destruct (rev r); simpl in *; [trivial | assumption].
  - now rewrite rev_involutive.
Qed.

(** C2: [users_mentioned] returns exactly the users of the directory whose
    username is named by a token of the text: a token on whitespace and
    commas which, stripped of outer punctuation other than [-] and [@],
    starts with [@], the username being the token without its [@]s.
    Candidates that match no user are dropped, and hyphens are kept: on
    "hello @alice, @bob and @nobody" with users alice and bob the result is
    alice and bob, on "cc @jane-doe" with user jane-doe it is jane-doe. *)
Theorem users_mentioned_exact :
  (forall directory text u,
      In u (users_mentioned directory text) <->
      In u directory /\ mentions text (username u))
  /\ (forall c, mem c punctuation = true <->
                mem c punctuation_all = true /\ c <> hyphen /\ c <> at_sign)
  /\ (forall token, exists a b,
         token = a ++ strip punctuation token ++ b
         /\ all_in punctuation a = true /\ all_in punctuation b = true
         /\ bounded (outside punctuation) (strip punctuation token)
         /\ bounded (outside punctuation) (rev (strip punctuation token)))
  /\ users_mentioned [alice; bob] (lit "hello @alice, @bob and @nobody")
     = [alice; bob]
  /\ users_mentioned [jane_doe] (lit "cc @jane-doe") = [jane_doe].
Proof.
  split; [exact users_mentioned_In|].
  split; [exact punctuation_spec|].
  split; [exact (strip_spec punctuation)|].
  split; reflexivity.
Qed.

(** ** Bytes and base64 *)

Lemma forallb_range n (p : N -> bool) :
  forallb p (range n) = true -> forall i, i < N.of_nat n -> p i = true.
Proof.
  unfold range; rewrite forallb_forall; intros H i Hi. apply H.
  apply in_map_iff. exists (N.to_nat i). rewrite N2Nat.id; split; [reflexivity|].
  apply in_seq. lia.
Qed.

Lemma forall_byte (p : N -> bool) :
  forallb p (range 256) = true -> forall b : byte, p (Byte.to_N b) = true.
Proof.
  intros H b. apply (forallb_range 256 p H).
  pose proof (Byte.to_N_bounded b). lia.
Qed.

Lemma forall_byte2 (p : N -> N -> bool) :
  forallb (fun x => forallb (p x) (range 256)) (range 256) = true ->
  forall a b : byte, p (Byte.to_N a) (Byte.to_N b) = true.
Proof.
  intros H a b.
  apply (forall_byte (p (Byte.to_N a))).
  apply (forall_byte (fun x => forallb (p x) (range 256)) H a).
Qed.

Lemma to_N_to_byte n : n < 256 -> Byte.to_N (to_byte n) = n.
Proof.
  intros Hn. unfold to_byte. rewrite N.mod_small by assumption.
  destruct (Byte.of_N n) as [b|] eqn:E.
  - now apply Byte.to_of_N.
  - apply Byte.of_N_None_iff in E. lia.
Qed.

Lemma to_byte_eq n (b : byte) : n mod 256 = Byte.to_N b -> to_byte n = b.
Proof. intros H. unfold to_byte. now rewrite H, Byte.of_to_N. Qed.

Lemma to_byte_to_N (b : byte) : to_byte (Byte.to_N b) = b.
Proof.
  apply to_byte_eq, N.mod_small. pose proof (Byte.to_N_bounded b). lia.
Qed.

Lemma bytes_ind3 (Q : bytes -> Prop) :
  Q [] -> (forall a, Q [a]) -> (forall a b, Q [a; b]) ->
  (forall a b c rest, Q rest -> Q (a :: b :: c :: rest)) ->
  forall l, Q l.
Proof.
  intros H0 H1 H2 H3. fix IH 1. intros [|a [|b [|c rest]]];
    [exact H0 | exact (H1 a) | exact (H2 a b) | exact (H3 a b c rest (IH rest))].
Qed.

Module Base64Facts.
Import Base64 Base64Check.

(** ASCII text is its own UTF-8 form. *)
Lemma encode_ascii s :
  forallb (fun c => c <? 128) s = true -> Utf8.encode s = Some (map to_byte s).
Proof.
  induction s as [|c s IH]; simpl; [reflexivity|].
  rewrite andb_true_iff; intros [Hc Hs].
  unfold Utf8.encode_char. rewrite Hc, (IH Hs). reflexivity.
Qed.

Lemma first_ok (a : byte) : check_first (Byte.to_N a) = true.
Proof. apply forall_byte. vm_compute. reflexivity. Qed.

Lemma second_ok (a b : byte) : check_second (Byte.to_N a) (Byte.to_N b) = true.
Proof. apply forall_byte2. vm_compute. reflexivity. Qed.

Lemma third_ok (b c : byte) : check_third (Byte.to_N b) (Byte.to_N c) = true.
Proof. apply forall_byte2. vm_compute. reflexivity. Qed.

Lemma fourth_ok (c : byte) : check_fourth (Byte.to_N c) = true.
Proof. apply forall_byte. vm_compute. reflexivity. Qed.

Lemma second_last_ok (a : byte) : check_second_last (Byte.to_N a) = true.
Proof. apply forall_byte. vm_compute. reflexivity. Qed.

Lemma third_last_ok (b : byte) : check_third_last (Byte.to_N b) = true.
Proof. apply forall_byte. vm_compute. reflexivity. Qed.

(** Every character of the alphabet is ASCII and none is a comma. *)
Lemma enc_plain i : (enc i <? 128) = true /\ (enc i =? comma) = false.
Proof.
  destruct (N.lt_ge_cases i 64) as [Hi | Hi].
  - pose proof (forallb_range 64
      (fun i => (enc i <? 128) && negb (enc i =? comma)) eq_refl i Hi) as H.
    apply andb_true_iff in H as [H1 H2].
    now apply negb_true_iff in H2.
  - unfold enc. rewrite nth_overflow; [split; reflexivity|].
    change (List.length alphabet) with 64%nat. lia.
Qed.

Lemma b64encode_plain bs :
  forallb (fun c => (c <? 128) && negb (c =? comma)) (b64encode bs) = true.
Proof.
  induction bs as [| a | a b | a b c rest IH] using bytes_ind3;
    cbn [b64encode forallb];
    repeat match goal with
      | |- context [enc ?i <? 128] =>
          rewrite (proj1 (enc_plain i)), (proj2 (enc_plain i))
      end;
    try rewrite IH; reflexivity.
Qed.

Lemma sextet_ok_inv s :
  sextet_ok s = true ->
  dec (enc s) = Some s /\ (enc s =? pad) = false /\ enc s < 256.
Proof.
  unfold sextet_ok. rewrite !andb_true_iff, negb_true_iff, N.ltb_lt.
  intros [[H1 H2] H3]. destruct (dec (enc s)) as [v|]; [|discriminate].
  apply N.eqb_eq in H1; subst v. repeat split; [assumption | lia].
Qed.

Section Steps.

Variables (s : N) (rest : bytes) (lc pads : N).
Hypothesis Hs : sextet_ok s = true.

Lemma a2b_step0 :
  a2b_base64 (to_byte (enc s) :: rest) 0 lc pads = a2b_base64 rest 1 s 0.
Proof.
  destruct (sextet_ok_inv s Hs) as (Hd & Hp & Hb).
  cbn [a2b_base64]. now rewrite (to_N_to_byte _ Hb), Hp, Hd.
Qed.

Lemma a2b_step1 :
  a2b_base64 (to_byte (enc s) :: rest) 1 lc pads
  = emit (N.lor (N.shiftl lc 2) (N.shiftr s 4))
         (a2b_base64 rest 2 (N.land s 15) 0).
Proof.
  destruct (sextet_ok_inv s Hs) as (Hd & Hp & Hb).
  cbn [a2b_base64]. now rewrite (to_N_to_byte _ Hb), Hp, Hd.
Qed.

Lemma a2b_step2 :
  a2b_base64 (to_byte (enc s) :: rest) 2 lc pads
  = emit (N.lor (N.shiftl lc 4) (N.shiftr s 2))
         (a2b_base64 rest 3 (N.land s 3) 0).
Proof.
  destruct (sextet_ok_inv s Hs) as (Hd & Hp & Hb).
  cbn [a2b_base64]. now rewrite (to_N_to_byte _ Hb), Hp, Hd.
Qed.

Lemma a2b_step3 :
  a2b_base64 (to_byte (enc s) :: rest) 3 lc pads
  = emit (N.lor (N.shiftl lc 6) s) (a2b_base64 rest 0 0 0).
Proof.
  destruct (sextet_ok_inv s Hs) as (Hd & Hp & Hb).
  cbn [a2b_base64]. now rewrite (to_N_to_byte _ Hb), Hp, Hd.
Qed.

End Steps.

Ltac split_checks H :=
  cbv zeta in H; rewrite ?andb_true_iff, ?N.eqb_eq in H; decompose [and] H; clear H.

(** Four characters give back the three bytes they were made from. *)
Lemma decode_quad a b c rest :
  a2b_base64 (map to_byte (b64encode (a :: b :: c :: rest))) 0 0 0
  = option_map (fun t => a :: b :: c :: t)
      (a2b_base64 (map to_byte (b64encode rest)) 0 0 0).
Proof.
  pose proof (first_ok a) as H1. pose proof (second_ok a b) as H2.
  pose proof (third_ok b c) as H3. pose proof (fourth_ok c) as H4.
  unfold check_first in H1. unfold check_second in H2.
  unfold check_third in H3. unfold check_fourth in H4.
  split_checks H2. split_checks H3. split_checks H4.
  cbn [b64encode map].
  rewrite a2b_step0 by assumption.
  rewrite a2b_step1 by assumption.
  rewrite a2b_step2 by assumption.
  rewrite a2b_step3 by assumption.
  match goal with E : N.land _ 15 = _ |- _ => rewrite E end.
  match goal with E : N.land _ 3 = _ |- _ => rewrite E end.
  unfold emit.
  repeat match goal with
    E : _ mod 256 = Byte.to_N ?x |- _ => rewrite (to_byte_eq _ x E); clear E
  end.
  destruct (a2b_base64 (map to_byte (b64encode rest)) 0 0 0); reflexivity.
Qed.

Lemma decode_last_one a :
  a2b_base64 (map to_byte (b64encode [a])) 0 0 0 = Some [a].
Proof.
  pose proof (first_ok a) as H1. pose proof (second_last_ok a) as H2.
  unfold check_first in H1. unfold check_second_last in H2.
  split_checks H2.
  cbn [b64encode map].
  rewrite a2b_step0 by assumption.
  rewrite a2b_step1 by assumption.
  unfold emit.
  match goal with
    E : _ mod 256 = Byte.to_N ?x |- _ => rewrite (to_byte_eq _ x E)
  end.
  reflexivity.
Qed.

Lemma decode_last_two a b :
  a2b_base64 (map to_byte (b64encode [a; b])) 0 0 0 = Some [a; b].
Proof.
  pose proof (first_ok a) as H1. pose proof (second_ok a b) as H2.
  pose proof (third_last_ok b) as H3.
  unfold check_first in H1. unfold check_second in H2.
  unfold check_third_last in H3.
  split_checks H2. split_checks H3.
  cbn [b64encode map].
  rewrite a2b_step0 by assumption.
  rewrite a2b_step1 by assumption.
  rewrite a2b_step2 by assumption.
  match goal with E : N.land _ 15 = _ |- _ => rewrite E end.
  unfold emit.
  repeat match goal with
    E : _ mod 256 = Byte.to_N ?x |- _ => rewrite (to_byte_eq _ x E); clear E
  end.
  reflexivity.
Qed.

(** Decoding the base64 text of a byte string gives the byte string. *)
Lemma a2b_b64encode bs :
  a2b_base64 (map to_byte (b64encode bs)) 0 0 0 = Some bs.
Proof.
  induction bs as [| a | a b | a b c rest IH] using bytes_ind3.
  - reflexivity.
  - apply decode_last_one.
  - apply decode_last_two.
  - rewrite decode_quad, IH. reflexivity.
Qed.

End Base64Facts.

(** ** Splitting on a marker *)

Lemma startswith_spec p : forall s,
  startswith p s = true <-> exists r, s = p ++ r.
Proof.
  induction p as [|x p IH]; intros s; simpl.
  - split; [intros _; exists s; reflexivity | reflexivity].
  - destruct s as [|y s].
    + split; [discriminate | intros [r H]; discriminate].
    + rewrite andb_true_iff, N.eqb_eq, IH. split.
      * intros [-> [r ->]]. exists r; reflexivity.
      * intros [r H]. injection H as -> ->. split; [reflexivity | now exists r].
Qed.

Lemma skipn_app_exact (p r : str) : skipn (List.length p) (p ++ r) = r.
Proof. induction p; simpl; auto. Qed.

Lemma find_unfold sep s :
  find sep s =
  if startswith sep s then Some ([], skipn (List.length sep) s)
  else match s with
       | [] => None
       | c :: s' =>
           match find sep s' with
           | Some (a, b) => Some (c :: a, b)
           | None => None
           end
       end.
Proof. destruct s; reflexivity. Qed.

Lemma startswith_skipn sep s :
  startswith sep s = true -> s = sep ++ skipn (List.length sep) s.
Proof.
  intros H. apply startswith_spec in H as [r H]. subst s.
  now rewrite skipn_app_exact.
Qed.

(** What [find] returns is an occurrence. *)
Lemma find_Some sep : forall s a b,
  find sep s = Some (a, b) -> s = a ++ sep ++ b.
Proof.
  induction s as [|c s IH]; intros a b; rewrite find_unfold;
    destruct (startswith sep _) eqn:E.
  - intros H; injection H as <- <-. now apply startswith_skipn.
  - discriminate.
  - intros H; injection H as <- <-. now apply startswith_skipn.
  - destruct (find sep s) as [[a' b']|] eqn:F; [|discriminate].
    intros H; injection H as <- <-. simpl. f_equal. now apply IH.
Qed.

(** When [find] returns nothing there is no occurrence. *)
Lemma find_None sep : forall s,
  find sep s = None -> forall a b, s <> a ++ sep ++ b.
Proof.
  induction s as [|c s IH]; rewrite find_unfold;
    destruct (startswith sep _) eqn:E; try discriminate; intros H a b Heq.
  - destruct a as [|x a]; [|discriminate].
    assert (startswith sep [] = true) as E'
      by (apply startswith_spec; exists b; exact Heq).
    congruence.
  - destruct (find sep s) as [[a' b']|] eqn:F; [discriminate|].
    destruct a as [|x a].
    + assert (startswith sep (c :: s) = true) as E'
        by (apply startswith_spec; exists b; exact Heq).
      congruence.
    + injection Heq as _ Heq. exact (IH eq_refl a b Heq).
Qed.

Lemma find_shorter sep s a b :
  sep <> [] -> find sep s = Some (a, b) -> (List.length b < List.length s)%nat.
Proof.
  intros Hsep H. apply find_Some in H. subst s.
  rewrite !length_app. destruct sep; [congruence | simpl; lia].
Qed.

Lemma split_fuel_nonempty fuel sep s : split_fuel fuel sep s <> [].
Proof.
  destruct fuel; simpl; destruct (find sep s) as [[a b]|]; discriminate.
Qed.

Lemma last_cons_nonempty (x : str) l d : l <> [] -> last (x :: l) d = last l d.
Proof. destruct l; [congruence | reflexivity]. Qed.

(** The last piece of a split: it follows an occurrence of the marker, or
    is the whole text, and holds no occurrence itself. *)
Lemma split_fuel_last sep : sep <> [] -> forall fuel s,
  (List.length s <= fuel)%nat ->
  exists pre,
    s = pre ++ last_item (split_fuel fuel sep s)
    /\ (pre = [] \/ exists q, pre = q ++ sep)
    /\ find sep (last_item (split_fuel fuel sep s)) = None.
Proof.
  intros Hsep. unfold last_item.
  induction fuel as [|fuel IH]; intros s Hlen; simpl;
    destruct (find sep s) as [[a b]|] eqn:F;
    try (exists []; simpl; auto; fail).
  - apply find_shorter in F; [lia | assumption].
  - pose proof (find_shorter _ _ _ _ Hsep F) as Hb.
    destruct (IH b ltac:(lia)) as (pre & Hpre & Hq & Hn).
    rewrite last_cons_nonempty by apply split_fuel_nonempty.
    apply find_Some in F.
    exists (a ++ sep ++ pre). split; [|split; [right | assumption]].
    + rewrite F at 1. rewrite Hpre at 1. now rewrite <- !app_assoc.
    + destruct Hq as [-> | [q ->]].
      * exists a. now rewrite app_nil_r.
      * exists (a ++ sep ++ q). now rewrite <- !app_assoc.
Qed.

Lemma comma_free_In t : comma_free t = true -> ~ In comma t.
Proof.
  unfold comma_free; rewrite forallb_forall; intros H Hin.
  apply H in Hin. now rewrite N.eqb_refl in Hin.
Qed.

(** The fuel of [split] is never used up: more fuel gives the same pieces. *)
Lemma split_fuel_enough sep : sep <> [] -> forall fuel s,
  (List.length s <= fuel)%nat -> split_fuel fuel sep s = split sep s.
Proof.
  intros Hsep. unfold split.
  assert (forall n m s, (List.length s <= n)%nat -> (List.length s <= m)%nat ->
                        split_fuel n sep s = split_fuel m sep s) as H.
  { induction n as [|n IH]; intros m s Hn Hm.
    - destruct s; [|simpl in Hn; lia].
      destruct (find sep []) as [[a b]|] eqn:F.
      + apply find_shorter in F; [simpl in F; lia | assumption].
      + destruct m; cbn [split_fuel]; now rewrite F.
    - cbn [split_fuel]. destruct (find sep s) as [[a b]|] eqn:F.
      + pose proof (find_shorter _ _ _ _ Hsep F) as Hb.
        destruct m; [lia|]. cbn [split_fuel]. rewrite F. f_equal. apply IH; lia.
      + destruct m; cbn [split_fuel]; now rewrite F. }
  intros fuel s Hlen. now apply H.
Qed.

(** A text that ends with the marker ends with a comma. *)
Lemma marker_tail_comma x y l :
  l <> [] -> x ++ marker = y ++ l -> In comma l.
Proof.
  intros Hl H. apply (f_equal (@rev N)) in H.
  rewrite !rev_app_distr in H. apply in_rev.
  destruct (rev l) as [|c r] eqn:E.
  - apply (f_equal (@rev N)) in E. rewrite rev_involutive in E. now subst.
  - change (rev marker) with (comma :: rev (lit "base64")) in H.
    simpl in H. injection H as <- _. left; reflexivity.
Qed.

(** A proper prefix of the marker has no comma. *)
Lemma marker_prefix_free l2 l : l <> [] -> marker = l2 ++ l -> ~ In comma l2.
Proof.
  intros Hl H. change marker with (lit "base64" ++ [comma]) in H.
  assert (forall k, lit "base64" = l2 ++ k -> ~ In comma l2) as Hbase.
  { intros k Hk Hin.
    assert (In comma (lit "base64")) as Hc
      by (rewrite Hk; apply in_or_app; left; exact Hin).
    vm_compute in Hc. intuition discriminate. }
  apply app_eq_app in H as [k [[H1 H2] | [H1 H2]]].
  - now apply (Hbase k).
  - symmetry in H2. apply app_eq_unit in H2 as [[-> _] | [_ ->]]; [|congruence].
    rewrite app_nil_r in H1. apply (Hbase []). now rewrite app_nil_r.
Qed.

Lemma occurrence_has_comma a b t : t = a ++ marker ++ b -> In comma t.
Proof.
  intros ->. apply in_or_app; right. apply in_or_app; left.
  vm_compute. tauto.
Qed.

(** What [s.split('base64,')[-1]] keeps: the end of the text, after the
    last marker when there is one, with no marker left in it. *)
Lemma after_marker_spec s :
  exists pre,
    s = pre ++ after_base64_marker s
    /\ (pre = [] \/ exists q, pre = q ++ marker)
    /\ find marker (after_base64_marker s) = None.
Proof.
  assert (marker <> []) as Hm by discriminate.
  exact (split_fuel_last marker Hm _ s (le_n _)).
Qed.

(** The text after the marker of a data URL, when that text has no comma. *)
Lemma after_marker_prefixed p t :
  comma_free t = true -> after_base64_marker (p ++ marker ++ t) = t.
Proof.
  intros Ht. apply comma_free_In in Ht.
  destruct (after_marker_spec (p ++ marker ++ t)) as (pre & Heq & Hq & Hn).
  revert Heq Hn. generalize (after_base64_marker (p ++ marker ++ t)) as r.
  intros r Heq Hn.
  rewrite app_assoc in Heq.
  apply app_eq_app in Heq as [l [[H1 H2] | [H1 H2]]].
  - destruct l as [|x l]; [exact H2|]. exfalso.
    destruct Hq as [-> | [q ->]].
    + apply (find_None _ _ Hn p t). rewrite H2. simpl in H1. rewrite <- H1.
      now rewrite <- app_assoc.
    + apply app_eq_app in H1 as [k [[H3 H4] | [H3 H4]]].
      * apply (find_None _ _ Hn k t). rewrite H2, H4. now rewrite <- app_assoc.
      * destruct k as [|y k].
        -- simpl in H4. apply (find_None _ _ Hn [] t). rewrite H2, <- H4.
           reflexivity.
        -- apply (marker_prefix_free (y :: k) (x :: l)); [discriminate | exact H4 |].
           apply (marker_tail_comma q p (y :: k)); [discriminate | exact H3].
  - destruct l as [|x l]; [symmetry; exact H2|].
    exfalso. destruct Hq as [-> | [q Hq]].
    + destruct p; discriminate.
    + apply Ht. rewrite H2. apply in_or_app; left.
      apply (marker_tail_comma q (p ++ marker) (x :: l)); [discriminate|].
      now rewrite <- Hq.
Qed.

(** A text without comma has no marker and is kept whole. *)
Lemma after_marker_plain t : comma_free t = true -> after_base64_marker t = t.
Proof.
  intros Ht. apply comma_free_In in Ht.
  unfold after_base64_marker, split. fold marker.
  destruct (find marker t) as [[a b]|] eqn:F.
  - exfalso. apply Ht. apply find_Some in F.
    now apply (occurrence_has_comma a b).
  - destruct (List.length t); simpl; rewrite F; reflexivity.
Qed.

(** ** The session and the store *)

Lemma for_each_add_notifications (f : User -> UserNotification.t) us : forall w s,
  for_each us (fun u => session_add_notification (f u)) (w, s)
  = (Ok tt, (w, mkSession (added_notifications s ++ map f us)
                          (added_comments s) (dirty s) (deleted s))).
Proof.
  induction us as [|u us IH]; intros w s.
  - destruct s; simpl. now rewrite app_nil_r.
  - simpl. unfold bind at 1. unfold session_add_notification at 1.
    unfold modify_session at 1. simpl. rewrite IH. simpl.
    now rewrite <- app_assoc.
Qed.

Lemma for_each_push us : forall w s,
  for_each us (fun u => flow_push (user_id u) FETCH_NOTIFICATIONS) (w, s)
  = (Ok tt, (mkWorld (users w) (group_table w) (comments w) (notifications w)
               (next_comment_id w) (events w ++ user_pushes us), s)).
Proof.
  induction us as [|u us IH]; intros w s.
  - destruct w; simpl. now rewrite app_nil_r.
  - simpl. unfold bind at 1. unfold flow_push at 1, log at 1.
    unfold modify_world at 1. simpl. rewrite IH. simpl.
    now rewrite <- app_assoc.
Qed.

Lemma apply_dirty_nil rows : map (apply_dirty []) rows = rows.
Proof. induction rows; simpl; [reflexivity | now f_equal]. Qed.

Lemma not_deleted_nil rows :
  filter (fun c => negb (is_deleted [] c)) rows = rows.
Proof. induction rows; simpl; [reflexivity | now f_equal]. Qed.

Section PostFacts.

Variable P : Policy.
Variable current_user : User.

(** [post] by cases: which check stops it, and the world it leaves. *)
Lemma post_cases data w :
  run (post P current_user data) w =
  match post_obj_id data with
  | None => (Ok (MissingField (lit "obj_id")), w)
  | Some obj_id =>
      match post_groups P current_user w (post_group_ids data) with
      | None => (Raised AccessDenied, w)
      | Some groups =>
          match decode_attachment (post_attachment data) with
          | Malformed => (Ok MalformedAttachment, w)
          | DecodeRaised e => (Raised e, w)
          | Decoded attachment_bytes attachment_name =>
              match post_text data with
              | None => (Raised AttributeError, w)
              | Some text =>
                  let mentioned := users_mentioned (users w) text in
                  let c := new_comment current_user obj_id (Some text)
                             attachment_bytes attachment_name groups in
                  if commit_ok P w (post_session current_user obj_id c mentioned)
                  then (Ok (Success (CommentId (next_comment_id w))),
                        post_world P current_user w obj_id c mentioned)
                  else (Raised StoreError, w)
              end
          end
      end
  end.
Proof.
  unfold run, post. destruct (post_obj_id data) as [obj_id|]; [|reflexivity].
  assert (forall k : list Group.t -> M response,
    bind (match post_group_ids data with
          | None | Some [] => ret (accessible_groups P current_user)
          | Some group_ids => Group_get_if_accessible_by P group_ids current_user
          end) k (w, empty_session)
    = match post_groups P current_user w (post_group_ids data) with
      | None => (Raised AccessDenied, (w, empty_session))
      | Some groups => k groups (w, empty_session)
      end) as Hg.
  { intros k. unfold post_groups.
    destruct (post_group_ids data) as [[|i ids]|]; try reflexivity.
    unfold Group_get_if_accessible_by, get_world, bind. cbn [fst].
    destruct (resolve_groups P current_user (group_table w) (i :: ids));
      reflexivity. }
  rewrite Hg. clear Hg.
  destruct (post_groups P current_user w (post_group_ids data)) as [groups|];
    [|reflexivity].
  destruct (decode_attachment (post_attachment data)) as [ab an| |e];
    try reflexivity.
  destruct (post_text data) as [text|]; [|reflexivity].
  unfold users_mentioned_in. unfold bind at 1. unfold bind at 1.
  unfold get_world at 1. unfold ret at 1. cbn [fst].
  unfold bind at 1. rewrite for_each_add_notifications.
  unfold bind at 1. unfold session_add_comment at 1, modify_session at 1.
  cbn [fst snd added_notifications added_comments dirty deleted empty_session app].
  unfold bind at 1. unfold verify_and_commit at 1.
  unfold post_session, new_comment.
  destruct (commit_ok P w _); [|reflexivity].
  unfold bind at 1. rewrite for_each_push.
  unfold bind at 1. unfold push_all at 1, log at 1, modify_world at 1.
  unfold ret. cbn -[FETCH_NOTIFICATIONS REFRESH_SOURCE Z.add].
  unfold post_world, post_events.
  rewrite apply_dirty_nil, not_deleted_nil.
  rewrite <- !app_assoc. reflexivity.
Qed.

End PostFacts.

Section PutFacts.

Variable P : Policy.
Variable current_user : User.

Lemma get_if_accessible_cases {A} comment_id m (k : Comment.t -> M A) w s :
  bind (Comment_get_if_accessible_by P comment_id current_user m) k (w, s)
  = match fetch P current_user m w comment_id with
    | Some c => k c (w, s)
    | None => (Raised NotFoundOrForbidden, (w, s))
    end.
Proof.
  unfold Comment_get_if_accessible_by, get_world, fetch, comment_row, bind.
  cbn [fst].
  destruct (List.find _ (comments w)) as [c|]; [|reflexivity].
  destruct (comment_accessible P current_user m c); reflexivity.
Qed.

Lemma session_update_fresh c w :
  session_update c (w, empty_session) = (Ok tt, (w, mkSession [] [] [c] [])).
Proof. reflexivity. Qed.

Lemma session_update_again c c' w :
  Comment.id c' = Comment.id c ->
  session_update c' (w, mkSession [] [] [c] [])
  = (Ok tt, (w, mkSession [] [] [c'] [])).
Proof.
  intros E. unfold session_update, modify_session. cbn.
  now rewrite E, Z.eqb_refl.
Qed.

Lemma commit_dirty c w (k : M response) :
  bind (verify_and_commit P) (fun _ => k) (w, mkSession [] [] [c] [])
  = if commit_ok P w (mkSession [] [] [c] [])
    then k (flush (mkSession [] [] [c] []) w, empty_session)
    else (Raised StoreError, (w, empty_session)).
Proof.
  unfold bind, verify_and_commit.
  destruct (commit_ok P w _); reflexivity.
Qed.

Lemma flush_dirty c w :
  flush (mkSession [] [] [c] []) w
  = mkWorld (users w) (group_table w) (replace_row c (comments w))
      (notifications w) (next_comment_id w) (events w ++ [Committed]).
Proof.
  unfold flush. cbn [added_notifications added_comments dirty deleted
                     assign_ids List.length Z.of_nat].
  rewrite not_deleted_nil, !app_nil_r, Z.add_0_r. f_equal.
  unfold replace_row. apply map_ext. intros r.
  unfold apply_dirty. cbn. rewrite Z.eqb_sym.
  destruct (Comment.id r =? Comment.id c)%Z; reflexivity.
Qed.

Lemma put_tail c w :
  run (fun st => bind (verify_and_commit P) (fun _ =>
         bind (push_all REFRESH_SOURCE (internal_key P (Comment.obj_id c)))
              (fun _ => ret (Success NoData))) (fst st, mkSession [] [] [c] [])) w
  = put_commit P w c.
Proof.
  unfold run, put_commit. cbn [fst]. rewrite commit_dirty.
  destruct (commit_ok P w _); [|reflexivity].
  rewrite flush_dirty. unfold put_world, bind, push_all, log, modify_world, ret.
  cbn -[REFRESH_SOURCE]. now rewrite <- app_assoc.
Qed.

(** [put] by cases: which check stops it, and the world it leaves. *)
Lemma put_cases comment_id data w :
  run (put P current_user comment_id data) w =
  match fetch P current_user Update w comment_id with
  | None => (Raised NotFoundOrForbidden, w)
  | Some c =>
      match schema_errors P data with
      | Some messages =>
          (Ok (Error (lit "Invalid/missing parameters: " ++ messages)), w)
      | None =>
          match resulting_state P data c with
          | None => (Raised UnicodeEncodeError, w)
          | Some c =>
              if jointly_null c then
                match put_group_ids data with
                | None => put_commit P w c
                | Some group_ids =>
                    match resolve_groups P current_user (group_table w) group_ids with
                    | Some groups => put_commit P w (Comment.set_groups groups c)
                    | None => (Raised AccessDenied, w)
                    end
                end
              else (Ok AttachmentConsistencyError, w)
          end
      end
  end.
Proof.
  unfold run, put. rewrite get_if_accessible_cases.
  destruct (fetch P current_user Update w comment_id) as [c|]; [|reflexivity].
  unfold resulting_state, schema_load.
  destruct (schema_errors P data) as [messages|]; [reflexivity|].
  set (c1 := match put_attachment_name data with
             | Some v => Comment.set_attachment_name v _
             | None => _
             end).
  unfold bind at 1. rewrite session_update_fresh.
  destruct (put_attachment_bytes data) as [body|].
  - destruct (Utf8.encode (after_base64_marker body)) as [b|];
      [|reflexivity].
    cbn [option_map].
    unfold bind at 1. unfold bind at 1.
    rewrite (session_update_again c1) by reflexivity.
    unfold ret at 1.
    set (c2 := Comment.set_attachment_bytes (Some b) c1).
    unfold jointly_null.
    destruct (xorb _ _); [reflexivity|]. cbn [negb].
    destruct (put_group_ids data) as [ids|].
    + unfold bind at 1. unfold bind at 1.
      unfold Group_get_if_accessible_by, get_world. unfold bind at 1. cbn [fst].
      destruct (resolve_groups P current_user (group_table w) ids) as [gs|];
        [|reflexivity].
      unfold ret at 1. unfold bind at 1.
      rewrite (session_update_again c2) by reflexivity.
      unfold ret at 1.
      exact (put_tail (Comment.set_groups gs c2) w).
    + unfold bind at 1. unfold ret at 1.
      exact (put_tail c2 w).
  - unfold bind at 1. unfold ret at 1.
    unfold jointly_null.
    destruct (xorb _ _); [reflexivity|]. cbn [negb].
    destruct (put_group_ids data) as [ids|].
    + unfold bind at 1. unfold bind at 1.
      unfold Group_get_if_accessible_by, get_world. unfold bind at 1. cbn [fst].
      destruct (resolve_groups P current_user (group_table w) ids) as [gs|];
        [|reflexivity].
      unfold ret at 1. unfold bind at 1.
      rewrite (session_update_again c1) by reflexivity.
      unfold ret at 1.
      exact (put_tail (Comment.set_groups gs c1) w).
    + unfold bind at 1. unfold ret at 1.
      exact (put_tail c1 w).
Qed.

End PutFacts.

Section ReadFacts.

Variable P : Policy.
Variable current_user : User.

(** [get] by cases. *)
Lemma get_cases comment_id w :
  run (get P current_user comment_id) w =
  match fetch P current_user Read w comment_id with
  | Some c => (Ok (Success (CommentData c)), w)
  | None => (Raised NotFoundOrForbidden, w)
  end.
Proof.
  unfold run, get. rewrite get_if_accessible_cases.
  destruct (fetch P current_user Read w comment_id); reflexivity.
Qed.

(** [delete] by cases. *)
Lemma delete_cases comment_id w :
  run (delete P current_user comment_id) w =
  match fetch P current_user Delete w comment_id with
  | Some c =>
      if commit_ok P w (mkSession [] [] [] [c])
      then (Ok (Success NoData), delete_world P w c)
      else (Raised StoreError, w)
  | None => (Raised NotFoundOrForbidden, w)
  end.
Proof.
  unfold run, delete. rewrite get_if_accessible_cases.
  destruct (fetch P current_user Delete w comment_id) as [c|]; [|reflexivity].
  unfold bind at 1. unfold session_delete at 1, modify_session at 1.
  cbn [fst snd added_notifications added_comments dirty deleted empty_session app].
  unfold bind at 1. unfold verify_and_commit at 1.
  destruct (commit_ok P w _); [|reflexivity].
  unfold bind, push_all, log, modify_world, ret, delete_world, flush.
  cbn -[REFRESH_SOURCE Z.eqb]. rewrite apply_dirty_nil, !app_nil_r, Z.add_0_r.
  rewrite <- app_assoc.
  rewrite (filter_ext _ (fun r => negb (Comment.id c =? Comment.id r)%Z));
    [reflexivity|].
  intros r. now rewrite orb_false_r.
Qed.

Lemma flush_empty w : flush empty_session w = committed w.
Proof.
  unfold flush, committed. cbn.
  now rewrite apply_dirty_nil, not_deleted_nil, !app_nil_r, Z.add_0_r.
Qed.

(** [attachment_get] by cases. *)
Lemma attachment_get_cases comment_id download_arg w :
  run (attachment_get P current_user comment_id download_arg) w =
  match download_flag download_arg with
  | None => (Raised ValueError, w)
  | Some download =>
      match fetch P current_user Read w comment_id with
      | None => (Raised NotFoundOrForbidden, w)
      | Some c =>
          if commit_ok P w empty_session then
            match Comment.attachment_bytes c with
            | None => (Raised TypeError, committed w)
            | Some data =>
                match Base64.a2b_base64 data 0 0 0 with
                | None => (Raised BinasciiError, committed w)
                | Some raw =>
                    if download
                    then (Ok (Written (download_headers c) raw), committed w)
                    else
                      match Utf8.decode raw with
                      | Some attachment =>
                          (Ok (Success (AttachmentData comment_id attachment)),
                           committed w)
                      | None => (Raised UnicodeDecodeError, committed w)
                      end
                end
            end
          else (Raised StoreError, w)
      end
  end.
Proof.
  unfold run, attachment_get, download_flag.
  destruct (strtobool _) as [download|]; [|reflexivity].
  rewrite get_if_accessible_cases.
  destruct (fetch P current_user Read w comment_id) as [c|]; [|reflexivity].
  unfold bind at 1. unfold verify_and_commit at 1.
  destruct (commit_ok P w empty_session); [|reflexivity].
  rewrite flush_empty. unfold b64decode.
  destruct (Comment.attachment_bytes c) as [data|];
    [|destruct download; reflexivity].
  destruct (Base64.a2b_base64 data 0 0 0) as [raw|];
    [|destruct download; reflexivity].
  destruct download; [reflexivity|].
  unfold bind, ret.
  destruct (Utf8.decode raw); reflexivity.
Qed.

End ReadFacts.

(** ** Creating a comment *)

Lemma user_pushes_filter us :
  filter is_user_push (user_pushes us) = user_pushes us
  /\ filter is_broadcast (user_pushes us) = [].
Proof.
  unfold user_pushes. induction us as [|u us [IH1 IH2]]; simpl; [split; reflexivity|].
  rewrite IH1, IH2. split; reflexivity.
Qed.

Lemma post_events_counts P obj_id us :
  List.length (filter is_user_push (post_events P obj_id us)) = List.length us
  /\ List.length (filter is_broadcast (post_events P obj_id us)) = 1%nat.
Proof.
  unfold post_events. cbn [filter is_user_push is_broadcast].
  rewrite !filter_app. destruct (user_pushes_filter us) as [-> ->].
  cbn. rewrite app_nil_r. unfold user_pushes. now rewrite length_map.
Qed.

(** Two duplicate-free lists of the same users have the same length. *)
Lemma mentioned_count directory text (mentioned : list User) :
  NoDup directory -> NoDup mentioned ->
  (forall u, In u mentioned <-> In u directory /\ mentions text (username u)) ->
  Permutation (users_mentioned directory text) mentioned.
Proof.
  intros Hd Hm Hiff. apply NoDup_Permutation.
  - now apply users_mentioned_NoDup.
  - assumption.
  - intros u. now rewrite users_mentioned_In, Hiff.
Qed.

(** A request that does not succeed leaves the world as it was. *)
Lemma post_failure_no_effect P current_user data w r w' :
  run (post P current_user data) w = (r, w') ->
  (forall d, r <> Ok (Success d)) -> w' = w.
Proof.
  rewrite post_cases. intros H Hr.
  destruct (post_obj_id data); [|now injection H].
  destruct (post_groups _ _ _ _); [|now injection H].
  destruct (decode_attachment _); try (now injection H).
  destruct (post_text data); [|now injection H].
  cbv zeta in H. destruct (commit_ok _ _ _); [|now injection H].
  injection H as <- _. now contradiction (Hr (CommentId (next_comment_id w))).
Qed.

(** What a successful [post] has done. *)
Lemma post_success_inv P current_user data w d w' :
  run (post P current_user data) w = (Ok (Success d), w') ->
  exists obj_id text groups attachment_bytes attachment_name,
    post_obj_id data = Some obj_id
    /\ post_text data = Some text
    /\ post_groups P current_user w (post_group_ids data) = Some groups
    /\ decode_attachment (post_attachment data)
       = Decoded attachment_bytes attachment_name
    /\ d = CommentId (next_comment_id w)
    /\ w' = post_world P current_user w obj_id
              (new_comment current_user obj_id (Some text) attachment_bytes
                           attachment_name groups)
              (users_mentioned (users w) text).
Proof.
  rewrite post_cases. intros H.
  destruct (post_obj_id data) as [obj_id|]; [|discriminate].
  destruct (post_groups _ _ _ _) as [groups|]; [|discriminate].
  destruct (decode_attachment _) as [ab an| |e]; try discriminate.
  destruct (post_text data) as [text|]; [|discriminate].
  cbv zeta in H. destruct (commit_ok _ _ _); [|discriminate].
  injection H as <- <-.
  exists obj_id, text, groups, ab, an. repeat split; reflexivity.
Qed.

(** The notifications and events of a committed [post], counted. *)
Lemma post_world_fan_out P current_user w obj_id text c mentioned k :
  NoDup (users w) ->
  NoDup mentioned ->
  (forall u, In u mentioned <-> In u (users w) /\ mentions text (username u)) ->
  List.length mentioned = k ->
  exists us created evs,
    Permutation us mentioned
    /\ created = map (fun u =>
         UserNotification.mk u
           (lit "*@" ++ username current_user
            ++ lit "* mentioned you in a comment on *" ++ obj_id ++ lit "*")
           (lit "/source/" ++ obj_id)) us
    /\ notifications
         (post_world P current_user w obj_id c (users_mentioned (users w) text))
       = notifications w ++ created
    /\ List.length created = k
    /\ events
         (post_world P current_user w obj_id c (users_mentioned (users w) text))
       = events w ++ evs
    /\ evs = Committed
             :: map (fun u => Push (user_id u) FETCH_NOTIFICATIONS) us
             ++ [PushAll REFRESH_SOURCE (internal_key P obj_id)]
    /\ List.length (filter is_user_push evs) = k
    /\ List.length (filter is_broadcast evs) = 1%nat.
Proof.
  intros Hdir Hnd Hiff Hk.
  pose proof (mentioned_count _ _ _ Hdir Hnd Hiff) as Hperm.
  pose proof (Permutation_length Hperm) as Hlen.
  destruct (post_events_counts P obj_id (users_mentioned (users w) text))
    as [Hc1 Hc2].
  exists (users_mentioned (users w) text).
  eexists. eexists. split; [exact Hperm|]. split; [reflexivity|].
  split; [reflexivity|]. split; [rewrite length_map; lia|].
  split; [reflexivity|]. split; [reflexivity|].
  split; [|exact Hc2].
  fold (user_pushes (users_mentioned (users w) text)).
  fold (post_events P obj_id (users_mentioned (users w) text)). lia.
Qed.

(** C1: a create request with an object id and a text that mentions exactly
    [k] distinct existing users, whose groups resolve and whose attachment
    decodes, is answered with success when the store accepts the commit: the
    comment is stored with exactly [k] notifications, one per mentioned
    user, with a text naming the requester and the object and a URL to the
    object, and the events of the request are the commit, then [k] pushes
    to the mentioned users, then one broadcast refresh for the object.  When
    the store refuses the commit the request ends in the store's error with
    nothing stored and nothing pushed; more generally every run that
    succeeds has this shape and every run that does not leaves the world as
    it was. *)
Theorem post_mentions_fan_out P current_user data w obj_id text mentioned k :
  post_obj_id data = Some obj_id ->
  post_text data = Some text ->
  NoDup (users w) ->
  NoDup mentioned ->
  (forall u, In u mentioned <-> In u (users w) /\ mentions text (username u)) ->
  List.length mentioned = k ->
  (forall groups attachment_bytes attachment_name,
      post_groups P current_user w (post_group_ids data) = Some groups ->
      decode_attachment (post_attachment data)
      = Decoded attachment_bytes attachment_name ->
      (commit_ok P w
         (post_session current_user obj_id
            (new_comment current_user obj_id (Some text) attachment_bytes
                         attachment_name groups)
            (users_mentioned (users w) text)) = true ->
       exists w' us created evs,
         run (post P current_user data) w
         = (Ok (Success (CommentId (next_comment_id w))), w')
         /\ comments w'
            = comments w
              ++ [Comment.mk (next_comment_id w) (Some text) obj_id
                    attachment_bytes attachment_name current_user groups]
         /\ Permutation us mentioned
         /\ created = map (fun u =>
              UserNotification.mk u
                (lit "*@" ++ username current_user
                 ++ lit "* mentioned you in a comment on *" ++ obj_id ++ lit "*")
                (lit "/source/" ++ obj_id)) us
         /\ notifications w' = notifications w ++ created
         /\ List.length created = k
         /\ events w' = events w ++ evs
         /\ evs = Committed
                  :: map (fun u => Push (user_id u) FETCH_NOTIFICATIONS) us
                  ++ [PushAll REFRESH_SOURCE (internal_key P obj_id)]
         /\ List.length (filter is_user_push evs) = k
         /\ List.length (filter is_broadcast evs) = 1%nat)
      /\ (commit_ok P w
            (post_session current_user obj_id
               (new_comment current_user obj_id (Some text) attachment_bytes
                            attachment_name groups)
               (users_mentioned (users w) text)) = false ->
          run (post P current_user data) w = (Raised StoreError, w)))
  /\ (forall r w',
         run (post P current_user data) w = (r, w') ->
         ((exists d, r = Ok (Success d)) ->
          exists us created evs,
            Permutation us mentioned
            /\ created = map (fun u =>
                 UserNotification.mk u
                   (lit "*@" ++ username current_user
                    ++ lit "* mentioned you in a comment on *" ++ obj_id ++ lit "*")
                   (lit "/source/" ++ obj_id)) us
            /\ notifications w' = notifications w ++ created
            /\ List.length created = k
            /\ events w' = events w ++ evs
            /\ evs = Committed
                     :: map (fun u => Push (user_id u) FETCH_NOTIFICATIONS) us
                     ++ [PushAll REFRESH_SOURCE (internal_key P obj_id)]
            /\ List.length (filter is_user_push evs) = k
            /\ List.length (filter is_broadcast evs) = 1%nat)
         /\ ((forall d, r <> Ok (Success d)) -> w' = w)).
Proof.
  intros Hobj Htext Hdir Hnd Hiff Hk. split.
  - intros groups ab an Hg Hdec. rewrite post_cases, Hobj, Hg, Hdec, Htext.
    cbv zeta. split; intros Hc; rewrite Hc; [|reflexivity].
    destruct (post_world_fan_out P current_user w obj_id text
                (new_comment current_user obj_id (Some text) ab an groups)
                mentioned k Hdir Hnd Hiff Hk)
      as (us & created & evs & Hfacts).
    eexists. exists us, created, evs.
    split; [reflexivity|]. split; [reflexivity|]. exact Hfacts.
  - intros r w' Hrun. split.
    + intros [d ->].
      destruct (post_success_inv _ _ _ _ _ _ Hrun)
        as (obj_id' & text' & groups & ab & an & Ho & Ht & _ & _ & _ & ->).
      rewrite Hobj in Ho. rewrite Htext in Ht.
      injection Ho as <-. injection Ht as <-.
      exact (post_world_fan_out P current_user w obj_id text _ mentioned k
               Hdir Hnd Hiff Hk).
    + intros Hr. exact (post_failure_no_effect _ _ _ _ _ _ Hrun Hr).
Qed.

Lemma demo_users_NoDup : NoDup (users demo_world).
Proof.
  repeat constructor; simpl; intuition discriminate.
Defined.

Lemma post_mentions_fan_out_witness :
  (exists w' us created evs,
      run (post demo_policy alice mention_request) demo_world
      = (Ok (Success (CommentId 2)), w')
      /\ comments w'
         = comments demo_world
           ++ [Comment.mk 2 (Some (lit "hello @alice, @bob and @nobody"))
                 (lit "ZTF21aaa") None JNull alice [g1; g2]]
      /\ Permutation us [alice; bob]
      /\ created = map (fun u =>
           UserNotification.mk u
             (lit "*@" ++ username alice
              ++ lit "* mentioned you in a comment on *" ++ lit "ZTF21aaa"
              ++ lit "*")
             (lit "/source/" ++ lit "ZTF21aaa")) us
      /\ notifications w' = notifications demo_world ++ created
      /\ List.length created = 2%nat
      /\ events w' = events demo_world ++ evs
      /\ evs = Committed
               :: map (fun u => Push (user_id u) FETCH_NOTIFICATIONS) us
               ++ [PushAll REFRESH_SOURCE
                     (internal_key demo_policy (lit "ZTF21aaa"))]
      /\ List.length (filter is_user_push evs) = 2%nat
      /\ List.length (filter is_broadcast evs) = 1%nat)
  /\ run (post refusing_policy alice mention_request) demo_world
     = (Raised StoreError, demo_world).
Proof.
  split.
  - destruct (post_mentions_fan_out demo_policy alice mention_request demo_world
                (lit "ZTF21aaa") (lit "hello @alice, @bob and @nobody")
                [alice; bob] 2%nat) as [Hcommitted _].
    + reflexivity.
    + reflexivity.
    + exact demo_users_NoDup.
    + repeat constructor; simpl; intuition discriminate.
    + intros u. rewrite <- users_mentioned_In. reflexivity.
    + reflexivity.
    + apply (Hcommitted [g1; g2] None JNull); reflexivity.
  - destruct (post_mentions_fan_out refusing_policy alice mention_request
                demo_world (lit "ZTF21aaa") (lit "hello @alice, @bob and @nobody")
                [alice; bob] 2%nat) as [Hrefused _].
    + reflexivity.
    + reflexivity.
    + exact demo_users_NoDup.
    + repeat constructor; simpl; intuition discriminate.
    + intros u. rewrite <- users_mentioned_In. reflexivity.
    + reflexivity.
    + apply (Hrefused [g1; g2] None JNull); reflexivity.
Defined.

(** C4: a create request that has an object id but no text is not answered
    with a missing-field error: the text is never checked, the mention
    extractor is called on [None] and the request ends in an
    [AttributeError], with nothing stored. *)
Theorem post_without_text_raises :
  run (post demo_policy alice request_without_text) demo_world
  = (Raised AttributeError, demo_world).
Proof. reflexivity. Qed.

(** ** The attachment of a create request *)

Lemma dict_has_get key fields :
  dict_has key fields = true -> exists v, dict_get key fields = Some v.
Proof.
  unfold dict_has. destruct (dict_get key fields) as [v|]; [eauto | discriminate].
Qed.

Lemma decode_attachment_malformed attachment :
  decode_attachment attachment = Malformed <->
  exists a, attachment = Some a /\
    ((forall fields, a <> JObj fields)
     \/ exists fields, a = JObj fields /\
          (dict_has (lit "body") fields = false
           \/ dict_has (lit "name") fields = false)).
Proof.
  unfold decode_attachment. split.
  - destruct attachment as [a|]; [|discriminate]. intros H. exists a.
    split; [reflexivity|].
    destruct a as [| | | | |fields]; try (left; intros f; discriminate).
    right. exists fields. split; [reflexivity|].
    destruct (dict_has (lit "body") fields) eqn:Hb; [|left; reflexivity].
    destruct (dict_has (lit "name") fields) eqn:Hn; [|right; reflexivity].
    exfalso. cbn [andb] in H.
    destruct (dict_has_get _ _ Hb) as [vb Eb].
    destruct (dict_has_get _ _ Hn) as [vn En].
    rewrite Eb, En in H.
    destruct vb; try discriminate.
    destruct (Utf8.encode _); discriminate.
  - intros (a & -> & [Hno | (fields & -> & Hlack)]).
    + destruct a; try reflexivity. now contradiction (Hno fields).
    + destruct Hlack as [-> | ->]; [reflexivity | now rewrite andb_false_r].
Qed.

Lemma decode_attachment_well_formed fields body name :
  dict_get (lit "body") fields = Some (JStr body) ->
  dict_get (lit "name") fields = Some name ->
  decode_attachment (Some (JObj fields)) =
  match Utf8.encode (after_base64_marker body) with
  | Some stored => Decoded (Some stored) name
  | None => DecodeRaised UnicodeEncodeError
  end.
Proof.
  intros Hb Hn. unfold decode_attachment, dict_has. now rewrite Hb, Hn.
Qed.

(** C7: decoding the attachment of a create request gives the malformed
    answer exactly when the attachment is present and is not an object, or
    lacks [body], or lacks [name]; [post] answers with the malformed error
    in that case and in no other, and nothing is stored or pushed.  For an
    object with a text [body] and a [name], what is kept of the body is its
    end after the last [base64,], the whole body when there is none; once
    the store accepts the commit, [post] answers with success and the new
    row of the comment holds the bytes of that text, character for
    character when it is ASCII, under the name given. *)
Theorem post_attachment_decoding :
  (forall attachment,
      decode_attachment attachment = Malformed <->
      exists a, attachment = Some a /\
        ((forall fields, a <> JObj fields)
         \/ exists fields, a = JObj fields /\
              (dict_has (lit "body") fields = false
               \/ dict_has (lit "name") fields = false)))
  /\ (forall P current_user data w r w',
         decode_attachment (post_attachment data) = Malformed ->
         run (post P current_user data) w = (r, w') ->
         w' = w
         /\ (forall d, r <> Ok (Success d))
         /\ (post_obj_id data <> None ->
             post_groups P current_user w (post_group_ids data) <> None ->
             r = Ok MalformedAttachment))
  /\ (forall P current_user data w w',
         run (post P current_user data) w = (Ok MalformedAttachment, w') ->
         decode_attachment (post_attachment data) = Malformed)
  /\ (forall fields body name,
         dict_get (lit "body") fields = Some (JStr body) ->
         dict_get (lit "name") fields = Some name ->
         exists stripped kept,
           body = stripped ++ kept
           /\ (stripped = [] \/ exists q, stripped = q ++ lit "base64,")
           /\ find (lit "base64,") kept = None
           /\ decode_attachment (Some (JObj fields)) =
              match Utf8.encode kept with
              | Some stored => Decoded (Some stored) name
              | None => DecodeRaised UnicodeEncodeError
              end
           /\ (forallb (fun c => c <? 128) kept = true ->
               decode_attachment (Some (JObj fields))
               = Decoded (Some (map to_byte kept)) name))
  /\ (forall P current_user data w obj_id text groups fields body name,
         post_obj_id data = Some obj_id ->
         post_text data = Some text ->
         post_groups P current_user w (post_group_ids data) = Some groups ->
         post_attachment data = Some (JObj fields) ->
         dict_get (lit "body") fields = Some (JStr body) ->
         dict_get (lit "name") fields = Some name ->
         (exists stripped,
             body = stripped ++ after_base64_marker body
             /\ (stripped = [] \/ exists q, stripped = q ++ lit "base64,")
             /\ find (lit "base64,") (after_base64_marker body) = None)
         /\ (forall stored,
                Utf8.encode (after_base64_marker body) = Some stored ->
                commit_ok P w
                  (post_session current_user obj_id
                     (new_comment current_user obj_id (Some text) (Some stored)
                                  name groups)
                     (users_mentioned (users w) text)) = true ->
                exists w',
                  run (post P current_user data) w
                  = (Ok (Success (CommentId (next_comment_id w))), w')
                  /\ comments w'
                     = comments w
                       ++ [Comment.mk (next_comment_id w) (Some text) obj_id
                             (Some stored) name current_user groups])
         /\ (forallb (fun c => c <? 128) (after_base64_marker body) = true ->
             Utf8.encode (after_base64_marker body)
             = Some (map to_byte (after_base64_marker body)))).
Proof.
  split; [exact decode_attachment_malformed|]. split; [|split; [|split]].
  - intros P current_user data w r w' Hm. rewrite post_cases, Hm.
    destruct (post_obj_id data); [|intros H; injection H as <- <-].
    + destruct (post_groups _ _ _ _); intros H; injection H as <- <-.
      * split; [reflexivity|]. split; [intros d; discriminate|]. reflexivity.
      * split; [reflexivity|]. split; [intros d; discriminate|]. congruence.
    + split; [reflexivity|]. split; [intros d; discriminate|]. congruence.
  - intros P current_user data w w'. rewrite post_cases.
    destruct (post_obj_id data);
      [|intros H; vm_compute in H; discriminate].
    destruct (post_groups _ _ _ _); [|discriminate].
    destruct (decode_attachment (post_attachment data)) as [ab an| |e];
      [|reflexivity|discriminate].
    destruct (post_text data); [|discriminate].
    cbv zeta. destruct (commit_ok _ _ _); discriminate.
  - intros fields body name Hb Hn.
    destruct (after_marker_spec body) as (pre & Heq & Hq & Hnone).
    exists pre, (after_base64_marker body).
    split; [exact Heq|]. split; [exact Hq|]. split; [exact Hnone|].
    rewrite (decode_attachment_well_formed _ _ _ Hb Hn).
    split; [reflexivity|].
    intros Hascii. now rewrite (Base64Facts.encode_ascii _ Hascii).
  - intros P current_user data w obj_id text groups fields body name
           Hobj Htext Hg Ha Hb Hn.
    split; [exact (after_marker_spec body)|]. split.
    + intros stored Henc Hc.
      rewrite post_cases, Hobj, Hg, Ha,
        (decode_attachment_well_formed _ _ _ Hb Hn), Henc, Htext.
      cbv zeta. rewrite Hc. eexists. split; reflexivity.
    + apply Base64Facts.encode_ascii.
Qed.

Lemma post_attachment_decoding_witness :
  (decode_attachment (Some attachment_without_name) = Malformed)
  /\ (run (post demo_policy alice
             (mkPostData (Some (lit "ZTF21aaa")) (Some (lit "see @bob"))
                         None (Some attachment_without_name))) demo_world
      = (Ok MalformedAttachment, demo_world))
  /\ (exists w',
         run (post demo_policy alice attachment_request) demo_world
         = (Ok (Success (CommentId 2)), w')
         /\ comments w'
            = comments demo_world
              ++ [Comment.mk 2 (Some (lit "spectrum attached")) (lit "ZTF21aaa")
                    (Some (map to_byte (lit "aGk="))) (JStr (lit "note.txt"))
                    alice [g1; g2]]).
Proof.
  destruct post_attachment_decoding as (H1 & H2 & _ & _ & H5).
  assert (decode_attachment (Some attachment_without_name) = Malformed) as Hm.
  { apply H1. exists attachment_without_name. split; [reflexivity|].
    right. exists [(lit "body", JStr (lit "aGk="))].
    split; [reflexivity | right; reflexivity]. }
  split; [exact Hm|]. split.
  - set (request := mkPostData (Some (lit "ZTF21aaa")) (Some (lit "see @bob"))
                                None (Some attachment_without_name)).
    destruct (H2 demo_policy alice request demo_world
               (fst (run (post demo_policy alice request) demo_world))
               (snd (run (post demo_policy alice request) demo_world))
               Hm (surjective_pairing _)) as (Hw & _ & Hr).
    rewrite (surjective_pairing (run (post demo_policy alice request) demo_world)).
    rewrite Hw, (Hr ltac:(discriminate) ltac:(discriminate)). reflexivity.
  - destruct (H5 demo_policy alice attachment_request demo_world
                (lit "ZTF21aaa") (lit "spectrum attached") [g1; g2]
                [(lit "body", JStr (lit "data:text/plain;base64,aGk="));
                 (lit "name", JStr (lit "note.txt"))]
                (lit "data:text/plain;base64,aGk=") (JStr (lit "note.txt"))
                eq_refl eq_refl eq_refl eq_refl eq_refl eq_refl)
      as (_ & Hstored & Hascii).
    apply (Hstored (map to_byte (lit "aGk="))); [|reflexivity].
    apply Hascii. reflexivity.
Defined.

(** ** Reading an attachment *)

(** C10: for an accessible comment without attachment the attachment
    handler never answers: [base64.b64decode] is called on [None] in the
    download and in the inline mode alike, and the request ends in a
    [TypeError] (or in an earlier unhandled error), never in a response. *)
Theorem attachment_get_without_attachment P current_user comment_id download_arg w c :
  fetch P current_user Read w comment_id = Some c ->
  Comment.attachment_bytes c = None ->
  (exists e w',
      run (attachment_get P current_user comment_id download_arg) w
      = (Raised e, w'))
  /\ (forall download,
         download_flag download_arg = Some download ->
         commit_ok P w empty_session = true ->
         run (attachment_get P current_user comment_id download_arg) w
         = (Raised TypeError, committed w)).
Proof.
  intros Hf Hb. rewrite attachment_get_cases, Hf, Hb. split.
  - destruct (download_flag download_arg); [|eauto].
    destruct (commit_ok P w empty_session); eauto.
  - intros download -> ->. reflexivity.
Qed.

Lemma attachment_get_without_attachment_witness :
  (exists e w',
      run (attachment_get demo_policy alice 1 None) demo_world = (Raised e, w'))
  /\ (forall download,
         download_flag None = Some download ->
         commit_ok demo_policy demo_world empty_session = true ->
         run (attachment_get demo_policy alice 1 None) demo_world
         = (Raised TypeError, committed demo_world)).
Proof.
  apply (attachment_get_without_attachment demo_policy alice 1 None demo_world
           first_comment); reflexivity.
Defined.

(** ** Absent and inaccessible comments *)

(** C8: reading or deleting a comment that does not exist, and reading or
    deleting one that exists but is not accessible to the requester, end in
    the same error, [NotFoundOrForbidden], and leave the world as it was:
    the answers do not tell the two cases apart. *)
Theorem absent_and_inaccessible_alike P current_user comment_id w_absent w_hidden c :
  comment_row w_absent comment_id = None ->
  comment_row w_hidden comment_id = Some c ->
  (comment_accessible P current_user Read c = false ->
   run (get P current_user comment_id) w_absent
   = (Raised NotFoundOrForbidden, w_absent)
   /\ run (get P current_user comment_id) w_hidden
      = (Raised NotFoundOrForbidden, w_hidden))
  /\ (comment_accessible P current_user Delete c = false ->
      run (delete P current_user comment_id) w_absent
      = (Raised NotFoundOrForbidden, w_absent)
      /\ run (delete P current_user comment_id) w_hidden
         = (Raised NotFoundOrForbidden, w_hidden)).
Proof.
  intros Ha Hh. split; intros Hacc.
  - rewrite !get_cases. unfold fetch. now rewrite Ha, Hh, Hacc.
  - rewrite !delete_cases. unfold fetch. now rewrite Ha, Hh, Hacc.
Qed.

Lemma absent_and_inaccessible_alike_witness :
  (run (get demo_policy bob 1) empty_world
   = (Raised NotFoundOrForbidden, empty_world)
   /\ run (get demo_policy bob 1) demo_world
      = (Raised NotFoundOrForbidden, demo_world))
  /\ (run (delete demo_policy bob 1) empty_world
      = (Raised NotFoundOrForbidden, empty_world)
      /\ run (delete demo_policy bob 1) demo_world
         = (Raised NotFoundOrForbidden, demo_world)).
Proof.
  destruct (absent_and_inaccessible_alike demo_policy bob 1 empty_world demo_world
              first_comment eq_refl eq_refl) as [Hget Hdelete].
  split; [apply Hget | apply Hdelete]; reflexivity.
Defined.

(** ** The attachment round trip *)

Lemma find_last_fresh (f : Comment.t -> bool) rows c :
  (forall r, In r rows -> f r = false) -> f c = true ->
  List.find f (rows ++ [c]) = Some c.
Proof.
  intros Hrows Hc. induction rows as [|r rows IH]; simpl.
  - now rewrite Hc.
  - rewrite (Hrows r (or_introl eq_refl)). apply IH.
    intros r' Hr'. apply Hrows. now right.
Qed.

(** The row of a comment just created, when identities are fresh. *)
Lemma post_world_row P author w obj_id c us :
  (forall r, In r (comments w) -> Comment.id r <> next_comment_id w) ->
  comment_row (post_world P author w obj_id c us) (next_comment_id w)
  = Some (Comment.set_id (next_comment_id w) c).
Proof.
  intros Hfresh. unfold comment_row, post_world. cbn [comments].
  apply find_last_fresh.
  - intros r Hr. apply Z.eqb_neq. now apply Hfresh.
  - apply Z.eqb_refl.
Qed.

Lemma b64encode_kept prefix bs :
  prefix = [] \/ (exists q, prefix = q ++ lit "base64,") ->
  Utf8.encode (after_base64_marker (prefix ++ Base64.b64encode bs))
  = Some (map to_byte (Base64.b64encode bs)).
Proof.
  intros Hp. pose proof (Base64Facts.b64encode_plain bs) as Hplain.
  assert (comma_free (Base64.b64encode bs) = true
          /\ forallb (fun c => c <? 128) (Base64.b64encode bs) = true)
    as [Hfree Hascii].
  { unfold comma_free. rewrite !forallb_forall in *.
    split; intros x Hx; apply Hplain in Hx;
      apply andb_true_iff in Hx as [H1 H2]; assumption. }
  assert (after_base64_marker (prefix ++ Base64.b64encode bs)
          = Base64.b64encode bs) as ->.
  { destruct Hp as [-> | [q ->]].
    - now apply after_marker_plain.
    - rewrite <- app_assoc. now apply (after_marker_prefixed q). }
  now apply Base64Facts.encode_ascii.
Qed.

(** C9: an attachment posted with the base64 text of the bytes [B] as its
    body, with or without a data-URL prefix that ends in [base64,], and then
    fetched in download mode, is written back as exactly [B]; [B] may be
    empty. *)
Theorem attachment_round_trip P author reader data w B prefix name fields
    download_arg d w1 :
  prefix = [] \/ (exists q, prefix = q ++ lit "base64,") ->
  post_attachment data = Some (JObj fields) ->
  dict_get (lit "body") fields = Some (JStr (prefix ++ Base64.b64encode B)) ->
  dict_get (lit "name") fields = Some name ->
  (forall c, In c (comments w) -> Comment.id c <> next_comment_id w) ->
  run (post P author data) w = (Ok (Success d), w1) ->
  exists comment_id c,
    d = CommentId comment_id
    /\ comment_row w1 comment_id = Some c
    /\ Comment.attachment_bytes c = Some (map to_byte (Base64.b64encode B))
    /\ (comment_accessible P reader Read c = true ->
        commit_ok P w1 empty_session = true ->
        download_flag download_arg = Some true ->
        run (attachment_get P reader comment_id download_arg) w1
        = (Ok (Written (download_headers c) B), committed w1)).
Proof.
  intros Hp Ha Hb Hn Hfresh Hrun.
  destruct (post_success_inv _ _ _ _ _ _ Hrun)
    as (obj_id & text & groups & ab & an & _ & _ & _ & Hdec & -> & ->).
  rewrite Ha, (decode_attachment_well_formed _ _ _ Hb Hn) in Hdec.
  rewrite (b64encode_kept _ _ Hp) in Hdec. injection Hdec as <- <-.
  eexists (next_comment_id w), _.
  split; [reflexivity|].
  split; [apply (post_world_row _ _ _ _ _ _ Hfresh)|]. split; [reflexivity|].
  intros Hacc Hcommit Hflag.
  rewrite attachment_get_cases, Hflag. unfold fetch.
  rewrite (post_world_row _ _ _ _ _ _ Hfresh), Hacc, Hcommit.
  cbn [Comment.attachment_bytes Comment.set_id new_comment].
  now rewrite Base64Facts.a2b_b64encode.
Qed.

Lemma attachment_round_trip_witness :
  exists comment_id c,
    CommentId 2 = CommentId comment_id
    /\ comment_row (snd (run (post demo_policy alice attachment_request) demo_world))
         comment_id = Some c
    /\ Comment.attachment_bytes c
       = Some (map to_byte (Base64.b64encode [to_byte 104; to_byte 105]))
    /\ (comment_accessible demo_policy bob Read c = true ->
        commit_ok demo_policy
          (snd (run (post demo_policy alice attachment_request) demo_world))
          empty_session = true ->
        download_flag None = Some true ->
        run (attachment_get demo_policy bob comment_id None)
            (snd (run (post demo_policy alice attachment_request) demo_world))
        = (Ok (Written (download_headers c) [to_byte 104; to_byte 105]),
           committed (snd (run (post demo_policy alice attachment_request)
                                demo_world)))).
Proof.
  apply (attachment_round_trip demo_policy alice bob attachment_request demo_world
           [to_byte 104; to_byte 105] (lit "data:text/plain;base64,")
           (JStr (lit "note.txt"))
           [(lit "body", JStr (lit "data:text/plain;base64,aGk="));
            (lit "name", JStr (lit "note.txt"))] None (CommentId 2)).
  - right. exists (lit "data:text/plain;"). reflexivity.
  - reflexivity.
  - reflexivity.
  - reflexivity.
  - intros c [<- | []]. discriminate.
  - reflexivity.
Defined.

(** ** Updating a comment *)

Lemma put_failure_no_effect P current_user comment_id data w r w' :
  run (put P current_user comment_id data) w = (r, w') ->
  (forall d, r <> Ok (Success d)) -> w' = w.
Proof.
  rewrite put_cases. unfold put_commit. intros H Hr.
  destruct (fetch _ _ _ _ _); [|now injection H].
  destruct (schema_errors P data); [now injection H|].
  destruct (resulting_state P data t) as [c1|]; [|now injection H].
  destruct (jointly_null c1); [|now injection H].
  destruct (put_group_ids data) as [ids|].
  - destruct (resolve_groups _ _ _ _); [|now injection H].
    destruct (commit_ok _ _ _); [|now injection H].
    injection H as <- _. now contradiction (Hr NoData).
  - destruct (commit_ok _ _ _); [|now injection H].
    injection H as <- _. now contradiction (Hr NoData).
Qed.

(** What a successful [put] has done. *)
Lemma put_success_inv P current_user comment_id data w d w' :
  run (put P current_user comment_id data) w = (Ok (Success d), w') ->
  exists c c1 c2,
    fetch P current_user Update w comment_id = Some c
    /\ schema_errors P data = None
    /\ resulting_state P data c = Some c1
    /\ jointly_null c1 = true
    /\ match put_group_ids data with
       | None => c2 = c1
       | Some ids =>
           exists gs, resolve_groups P current_user (group_table w) ids = Some gs
                      /\ c2 = Comment.set_groups gs c1
       end
    /\ w' = put_world P w c2.
Proof.
  rewrite put_cases. unfold put_commit. intros H.
  destruct (fetch _ _ _ _ _) as [c|]; [|discriminate].
  destruct (schema_errors P data); [discriminate|].
  destruct (resulting_state P data c) as [c1|] eqn:Hr; [|discriminate].
  destruct (jointly_null c1) eqn:Hj; [|discriminate].
  destruct (put_group_ids data) as [ids|].
  - destruct (resolve_groups _ _ _ _) as [gs|] eqn:Hg; [|discriminate].
    destruct (commit_ok _ _ _); [|discriminate]. injection H as _ <-.
    exists c, c1, (Comment.set_groups gs c1). repeat split; eauto.
  - destruct (commit_ok _ _ _); [|discriminate]. injection H as _ <-.
    exists c, c1, c1. repeat split; eauto.
Qed.

Lemma fetch_row P user m w comment_id c :
  fetch P user m w comment_id = Some c ->
  comment_row w comment_id = Some c /\ Comment.id c = comment_id.
Proof.
  unfold fetch. destruct (comment_row w comment_id) as [c'|] eqn:E; [|discriminate].
  destruct (comment_accessible P user m c'); [|discriminate].
  intros H; injection H as <-. split; [reflexivity|].
  unfold comment_row in E. apply find_some in E as [_ E]. now apply Z.eqb_eq in E.
Qed.

(** The row of an updated comment. *)
Lemma put_world_row P w comment_id c c2 :
  comment_row w comment_id = Some c ->
  Comment.id c2 = Comment.id c ->
  comment_row (put_world P w c2) comment_id = Some c2.
Proof.
  unfold comment_row, put_world, replace_row. cbn [comments].
  intros Hrow Hid.
  assert (Comment.id c = comment_id) as Hc
    by (apply find_some in Hrow as [_ E]; now apply Z.eqb_eq in E).
  induction (comments w) as [|r rows IH]; [discriminate|].
  simpl in *. destruct (Comment.id r =? comment_id)%Z eqn:E.
  - apply Z.eqb_eq in E.
    replace (Comment.id c2 =? Comment.id r)%Z with true
      by (symmetry; apply Z.eqb_eq; congruence).
    replace (Comment.id c2 =? comment_id)%Z with true
      by (symmetry; apply Z.eqb_eq; congruence).
    reflexivity.
  - replace (Comment.id c2 =? Comment.id r)%Z with false.
    + rewrite E. now apply IH.
    + symmetry. apply Z.eqb_neq. apply Z.eqb_neq in E. congruence.
Qed.

Lemma resulting_state_fields P data c c1 :
  resulting_state P data c = Some c1 ->
  Comment.id c1 = Comment.id c
  /\ Comment.groups c1 = Comment.groups c
  /\ Comment.attachment_name c1
     = match put_attachment_name data with
       | Some v => v
       | None => Comment.attachment_name c
       end
  /\ match put_attachment_bytes data with
     | Some body =>
         Utf8.encode (after_base64_marker body) = Comment.attachment_bytes c1
     | None => Comment.attachment_bytes c1 = Comment.attachment_bytes c
     end.
Proof.
  unfold resulting_state, schema_load.
  destruct (schema_errors P data); [discriminate|].
  destruct (put_attachment_bytes data) as [body|].
  - destruct (Utf8.encode (after_base64_marker body)) as [b|]; [|discriminate].
    intros H; injection H as <-.
    destruct (put_attachment_name data), (put_text data); cbn; auto.
  - intros H; injection H as <-.
    destruct (put_attachment_name data), (put_text data); cbn; auto.
Qed.

(** C3: [put] checks the pairing of attachment name and bytes on the state
    that results from applying the request to the stored comment, and
    commits only a state that passes.  A request that sets only the name of
    a comment whose bytes are null is answered with the consistency error
    and changes nothing; a request that sets name and bytes together
    passes and is committed. *)
Theorem put_checks_resulting_state P current_user comment_id data w c :
  fetch P current_user Update w comment_id = Some c ->
  schema_errors P data = None ->
  (forall c1, resulting_state P data c = Some c1 ->
      jointly_null c1 = false ->
      run (put P current_user comment_id data) w
      = (Ok AttachmentConsistencyError, w))
  /\ (forall d w',
         run (put P current_user comment_id data) w = (Ok (Success d), w') ->
         exists c1 c2,
           resulting_state P data c = Some c1 /\ jointly_null c1 = true
           /\ comment_row w' comment_id = Some c2 /\ jointly_null c2 = true)
  /\ (forall v,
         put_attachment_name data = Some v -> v <> JNull ->
         put_attachment_bytes data = None ->
         Comment.attachment_bytes c = None ->
         run (put P current_user comment_id data) w
         = (Ok AttachmentConsistencyError, w))
  /\ (forall v body stored,
         put_attachment_name data = Some v -> v <> JNull ->
         put_attachment_bytes data = Some body ->
         Utf8.encode (after_base64_marker body) = Some stored ->
         (forall ids, put_group_ids data = Some ids ->
                      resolve_groups P current_user (group_table w) ids <> None) ->
         (forall pending, commit_ok P w (mkSession [] [] [pending] []) = true) ->
         exists c2 w',
           run (put P current_user comment_id data) w = (Ok (Success NoData), w')
           /\ comment_row w' comment_id = Some c2
           /\ Comment.attachment_name c2 = v
           /\ Comment.attachment_bytes c2 = Some stored).
Proof.
  intros Hf Hs. destruct (fetch_row _ _ _ _ _ _ Hf) as [Hrow Hid].
  split; [|split; [|split]].
  - intros c1 Hr Hj. now rewrite put_cases, Hf, Hs, Hr, Hj.
  - intros d w' Hrun.
    destruct (put_success_inv _ _ _ _ _ _ _ Hrun)
      as (c' & c1 & c2 & Hf' & _ & Hr & Hj & Hg & ->).
    rewrite Hf in Hf'. injection Hf' as <-.
    destruct (resulting_state_fields _ _ _ _ Hr) as (Hid1 & _).
    exists c1, c2. split; [exact Hr|]. split; [exact Hj|].
    assert (Comment.id c2 = Comment.id c /\ jointly_null c2 = true) as [Hid2 Hj2].
    { destruct (put_group_ids data).
      - destruct Hg as (gs & _ & ->). split; assumption.
      - subst c2. split; assumption. }
    split; [now apply (put_world_row P w comment_id c)|exact Hj2].
  - intros v Hn Hv Hb Hcb.
    destruct (resulting_state P data c) as [c1|] eqn:Hr.
    + destruct (resulting_state_fields _ _ _ _ Hr) as (_ & _ & Hname & Hbytes).
      rewrite Hn in Hname. rewrite Hb in Hbytes.
      rewrite put_cases, Hf, Hs, Hr. unfold jointly_null.
      rewrite Hname, Hbytes, Hcb. destruct v; [congruence | reflexivity ..].
    + unfold resulting_state, schema_load in Hr. rewrite Hs, Hb in Hr.
      discriminate.
  - intros v body stored Hn Hv Hb He Hg Hc.
    assert (exists c1, resulting_state P data c = Some c1) as [c1 Hr].
    { unfold resulting_state, schema_load. rewrite Hs, Hb, He. cbn. eauto. }
    destruct (resulting_state_fields _ _ _ _ Hr) as (Hid1 & _ & Hname & Hbytes).
    rewrite Hn in Hname. rewrite Hb, He in Hbytes.
    assert (jointly_null c1 = true) as Hj.
    { unfold jointly_null. rewrite Hname, <- Hbytes.
      destruct v; [congruence | reflexivity ..]. }
    rewrite put_cases, Hf, Hs, Hr, Hj. unfold put_commit.
    destruct (put_group_ids data) as [ids|].
    + destruct (resolve_groups P current_user (group_table w) ids) as [gs|] eqn:Eg;
        [|now contradiction (Hg ids eq_refl)].
      rewrite Hc. exists (Comment.set_groups gs c1). eexists.
      split; [reflexivity|].
      split; [now apply (put_world_row P w comment_id c)|].
      split; [exact Hname | now symmetry].
    + rewrite Hc. exists c1. eexists. split; [reflexivity|].
      split; [now apply (put_world_row P w comment_id c)|].
      split; [exact Hname | now symmetry].
Qed.

Lemma put_checks_resulting_state_witness :
  run (put demo_policy alice 1 rename_request) demo_world
  = (Ok AttachmentConsistencyError, demo_world)
  /\ exists c2 w',
       run (put demo_policy alice 1 attach_request) demo_world
       = (Ok (Success NoData), w')
       /\ comment_row w' 1 = Some c2
       /\ Comment.attachment_name c2 = JStr (lit "note.txt")
       /\ Comment.attachment_bytes c2 = Some (map to_byte (lit "aGk=")).
Proof.
  split.
  - destruct (put_checks_resulting_state demo_policy alice 1 rename_request
                demo_world first_comment eq_refl eq_refl) as (_ & _ & H & _).
    apply (H (JStr (lit "note.txt"))); [reflexivity | discriminate | reflexivity ..].
  - destruct (put_checks_resulting_state demo_policy alice 1 attach_request
                demo_world first_comment eq_refl eq_refl) as (_ & _ & _ & H).
    apply (H (JStr (lit "note.txt")) (lit "aGk=") (map to_byte (lit "aGk=")));
      [reflexivity | discriminate | reflexivity | reflexivity
      | discriminate | reflexivity].
Defined.

(** ** Visibility *)

Lemma resolve_groups_resolved P user table ids : forall gs,
  resolve_groups P user table ids = Some gs ->
  Forall2 (resolved P user table) ids gs.
Proof.
  induction ids as [|i ids IH]; intros gs; simpl.
  - intros H; injection H as <-. constructor.
  - destruct (List.find _ table) as [g|] eqn:E; [|discriminate].
    destruct (group_accessible P user g) eqn:Ha; [|discriminate].
    destruct (resolve_groups P user table ids) as [gs'|]; [|discriminate].
    intros H; injection H as <-. constructor; [|now apply IH].
    apply find_some in E as [Hin Hid]. apply Z.eqb_eq in Hid.
    repeat split; assumption.
Qed.

Lemma resolve_groups_length P user table ids gs :
  resolve_groups P user table ids = Some gs -> List.length gs = List.length ids.
Proof.
  intros H. apply resolve_groups_resolved in H.
  symmetry. exact (Forall2_length H).
Qed.

(** The comment stored by a successful [post] and its groups. *)
Lemma post_success_groups P current_user data w d w' :
  run (post P current_user data) w = (Ok (Success d), w') ->
  exists c groups,
    comments w' = comments w ++ [c]
    /\ Comment.groups c = groups
    /\ post_groups P current_user w (post_group_ids data) = Some groups.
Proof.
  intros Hrun.
  destruct (post_success_inv _ _ _ _ _ _ Hrun)
    as (obj_id & text & groups & ab & an & _ & _ & Hg & _ & _ & ->).
  eexists _, groups. split; [reflexivity|]. split; [reflexivity | exact Hg].
Qed.

(** The comment stored by a successful [put] and its groups. *)
Lemma put_success_groups P current_user comment_id data w c d w' :
  fetch P current_user Update w comment_id = Some c ->
  run (put P current_user comment_id data) w = (Ok (Success d), w') ->
  exists c2,
    comment_row w' comment_id = Some c2
    /\ match put_group_ids data with
       | None => Comment.groups c2 = Comment.groups c
       | Some ids =>
           resolve_groups P current_user (group_table w) ids
           = Some (Comment.groups c2)
       end.
Proof.
  intros Hf Hrun. destruct (fetch_row _ _ _ _ _ _ Hf) as [Hrow Hid].
  destruct (put_success_inv _ _ _ _ _ _ _ Hrun)
    as (c' & c1 & c2 & Hf' & _ & Hr & _ & Hg & ->).
  rewrite Hf in Hf'. injection Hf' as <-.
  destruct (resulting_state_fields _ _ _ _ Hr) as (Hid1 & Hgr1 & _).
  exists c2. destruct (put_group_ids data) as [ids|].
  - destruct Hg as (gs & Hgs & ->).
    split; [now apply (put_world_row P w comment_id c) | exact Hgs].
  - subst c2. split; [now apply (put_world_row P w comment_id c) | exact Hgr1].
Qed.

(** C5, as the handlers have it: on create, an absent or empty list of
    group ids gives the comment the accessible groups of the requester, and
    a non-empty list must resolve id by id, a single id that does not
    failing the request with [AccessDenied] and nothing created.  On update,
    an absent list leaves the groups of the comment as they were, and a
    non-empty list must resolve in the same way, a single id that does not
    leaving the comment unmodified. *)
Theorem visibility_resolution :
  (forall P current_user data w d w',
      post_group_ids data = None \/ post_group_ids data = Some [] ->
      run (post P current_user data) w = (Ok (Success d), w') ->
      exists c, comments w' = comments w ++ [c]
                /\ Comment.groups c = accessible_groups P current_user)
  /\ (forall P current_user data w ids r w',
         post_group_ids data = Some ids -> ids <> [] ->
         run (post P current_user data) w = (r, w') ->
         (resolve_groups P current_user (group_table w) ids = None ->
          w' = w /\ (forall d, r <> Ok (Success d))
          /\ (post_obj_id data <> None -> r = Raised AccessDenied))
         /\ (forall d, r = Ok (Success d) ->
             exists c, comments w' = comments w ++ [c]
                       /\ Forall2 (resolved P current_user (group_table w))
                                  ids (Comment.groups c)))
  /\ (forall P current_user comment_id data w c d w',
         fetch P current_user Update w comment_id = Some c ->
         put_group_ids data = None ->
         run (put P current_user comment_id data) w = (Ok (Success d), w') ->
         exists c2, comment_row w' comment_id = Some c2
                    /\ Comment.groups c2 = Comment.groups c)
  /\ (forall P current_user comment_id data w c ids r w',
         fetch P current_user Update w comment_id = Some c ->
         put_group_ids data = Some ids -> ids <> [] ->
         run (put P current_user comment_id data) w = (r, w') ->
         (resolve_groups P current_user (group_table w) ids = None ->
          w' = w /\ (forall d, r <> Ok (Success d))
          /\ (forall c1, schema_errors P data = None ->
                resulting_state P data c = Some c1 ->
                jointly_null c1 = true -> r = Raised AccessDenied))
         /\ (forall d, r = Ok (Success d) ->
             exists c2, comment_row w' comment_id = Some c2
                        /\ Forall2 (resolved P current_user (group_table w))
                                   ids (Comment.groups c2))).
Proof.
  split; [|split; [|split]].
  - intros P u data w d w' Hids Hrun.
    destruct (post_success_groups _ _ _ _ _ _ Hrun) as (c & groups & Hc & Hg & Hp).
    exists c. split; [exact Hc|]. rewrite Hg.
    destruct Hids as [E | E]; rewrite E in Hp; now injection Hp.
  - intros P u data w ids r w' Hids Hne Hrun.
    assert (post_groups P u w (post_group_ids data)
            = resolve_groups P u (group_table w) ids) as Hpg.
    { rewrite Hids. destruct ids; [congruence | reflexivity]. }
    split.
    + intros Hnone. rewrite post_cases, Hpg, Hnone in Hrun.
      destruct (post_obj_id data); injection Hrun as <- <-;
        (split; [reflexivity|]); (split; [intros d; discriminate|]);
        congruence.
    + intros d ->.
      destruct (post_success_groups _ _ _ _ _ _ Hrun) as (c & groups & Hc & Hg & Hp).
      exists c. split; [exact Hc|]. rewrite Hg.
      rewrite Hpg in Hp. now apply resolve_groups_resolved.
  - intros P u comment_id data w c d w' Hf Hids Hrun.
    destruct (put_success_groups _ _ _ _ _ _ _ _ Hf Hrun) as (c2 & Hrow & Hg).
    rewrite Hids in Hg. now exists c2.
  - intros P u comment_id data w c ids r w' Hf Hids Hne Hrun. split.
    + intros Hnone.
      assert (forall d, r <> Ok (Success d)) as Hr.
      { intros d ->.
        destruct (put_success_inv _ _ _ _ _ _ _ Hrun)
          as (c' & c1 & c2 & _ & _ & _ & _ & Hg & _).
        rewrite Hids in Hg. destruct Hg as (gs & Hgs & _). congruence. }
      split; [exact (put_failure_no_effect _ _ _ _ _ _ _ Hrun Hr)|].
      split; [exact Hr|].
      intros c1 Hs Hres Hj.
      rewrite put_cases, Hf, Hs, Hres, Hj, Hids, Hnone in Hrun.
      now injection Hrun.
    + intros d ->.
      destruct (put_success_groups _ _ _ _ _ _ _ _ Hf Hrun) as (c2 & Hrow & Hg).
      rewrite Hids in Hg. exists c2. split; [exact Hrow|].
      now apply resolve_groups_resolved.
Qed.

Lemma visibility_resolution_witness :
  (exists c,
      comments (snd (run (post demo_policy alice mention_request) demo_world))
      = comments demo_world ++ [c]
      /\ Comment.groups c = [g1; g2])
  /\ (exists c2,
         comment_row (snd (run (put demo_policy alice 1 edit_request) demo_world)) 1
         = Some c2
         /\ Comment.groups c2 = [g1]).
Proof.
  destruct visibility_resolution as (Hcreate & _ & Hupdate & _). split.
  - apply (Hcreate demo_policy alice mention_request demo_world (CommentId 2));
      [left|]; reflexivity.
  - apply (Hupdate demo_policy alice 1%Z edit_request demo_world first_comment NoData);
      reflexivity.
Defined.

(** An update without a list of group ids does not give the comment the
    accessible groups of the requester: the comment keeps its groups. *)
Lemma put_without_groups_keeps_visibility :
  exists c2,
    fst (run (put demo_policy alice 1 edit_request) demo_world) = Ok (Success NoData)
    /\ put_group_ids edit_request = None
    /\ comment_row (snd (run (put demo_policy alice 1 edit_request) demo_world)) 1
       = Some c2
    /\ Comment.groups c2 = [g1]
    /\ accessible_groups demo_policy alice = [g1; g2]
    /\ Comment.groups c2 <> accessible_groups demo_policy alice.
Proof.
  eexists. repeat split; try reflexivity. discriminate.
Qed.

(** A requester without accessible groups creates a comment that no group
    sees. *)
Lemma post_with_empty_visibility :
  exists c,
    fst (run (post demo_policy jane_doe plain_request) demo_world)
    = Ok (Success (CommentId 2))
    /\ comment_row (snd (run (post demo_policy jane_doe plain_request) demo_world)) 2
       = Some c
    /\ Comment.groups c = [].
Proof.
  eexists. repeat split; reflexivity.
Qed.

(** C6, as the handlers have it: the handlers make no check of their own
    that the groups of a comment are not empty.  A comment stored by create
    has groups when the request lists a group id or the requester has an
    accessible group; a comment stored by update has groups when the request
    lists a group id, or has no list and the comment had groups before. *)
Theorem persisted_visibility_nonempty :
  (forall P current_user data w d w',
      (post_group_ids data = None \/ post_group_ids data = Some [] ->
       accessible_groups P current_user <> []) ->
      run (post P current_user data) w = (Ok (Success d), w') ->
      exists c, comments w' = comments w ++ [c] /\ Comment.groups c <> [])
  /\ (forall P current_user comment_id data w c d w',
         fetch P current_user Update w comment_id = Some c ->
         (put_group_ids data = None -> Comment.groups c <> []) ->
         put_group_ids data <> Some [] ->
         run (put P current_user comment_id data) w = (Ok (Success d), w') ->
         exists c2, comment_row w' comment_id = Some c2 /\ Comment.groups c2 <> []).
Proof.
  split.
  - intros P u data w d w' Hacc Hrun.
    destruct (post_success_groups _ _ _ _ _ _ Hrun) as (c & groups & Hc & Hg & Hp).
    exists c. split; [exact Hc|]. rewrite Hg. unfold post_groups in Hp.
    destruct (post_group_ids data) as [[|i ids]|].
    + injection Hp as <-. apply Hacc. now right.
    + apply resolve_groups_length in Hp. destruct groups; [discriminate|congruence].
    + injection Hp as <-. apply Hacc. now left.
  - intros P u comment_id data w c d w' Hf Hkeep Hne Hrun.
    destruct (put_success_groups _ _ _ _ _ _ _ _ Hf Hrun) as (c2 & Hrow & Hg).
    exists c2. split; [exact Hrow|].
    destruct (put_group_ids data) as [[|i ids]|].
    + congruence.
    + apply resolve_groups_length in Hg.
      destruct (Comment.groups c2); [discriminate|congruence].
    + rewrite Hg. now apply Hkeep.
Qed.

Lemma persisted_visibility_nonempty_witness :
  (exists c,
      comments (snd (run (post demo_policy alice mention_request) demo_world))
      = comments demo_world ++ [c]
      /\ Comment.groups c <> [])
  /\ (exists c2,
         comment_row (snd (run (put demo_policy alice 1 edit_request) demo_world)) 1
         = Some c2
         /\ Comment.groups c2 <> []).
Proof.
  destruct persisted_visibility_nonempty as (Hcreate & Hupdate). split.
  - apply (Hcreate demo_policy alice mention_request demo_world (CommentId 2));
      [intros _; discriminate | reflexivity].
  - apply (Hupdate demo_policy alice 1%Z edit_request demo_world first_comment NoData);
      [reflexivity | intros _; discriminate | discriminate | reflexivity].
Defined.

(** * Further properties of the handlers *)

(** ** When a create request succeeds *)

(** [post] answers with success exactly when the request carries an object
    id and a text, its groups resolve, its attachment decodes and the store
    accepts the commit of the comment with its notifications. *)
Theorem post_succeeds_exactly_when P current_user data w :
  (exists d w', run (post P current_user data) w = (Ok (Success d), w')) <->
  exists obj_id text groups attachment_bytes attachment_name,
    post_obj_id data = Some obj_id
    /\ post_text data = Some text
    /\ post_groups P current_user w (post_group_ids data) = Some groups
    /\ decode_attachment (post_attachment data)
       = Decoded attachment_bytes attachment_name
    /\ commit_ok P w
         (post_session current_user obj_id
            (new_comment current_user obj_id (Some text) attachment_bytes
                         attachment_name groups)
            (users_mentioned (users w) text)) = true.
Proof.
  rewrite post_cases. split.
  - intros (d & w' & H).
    destruct (post_obj_id data) as [obj_id|]; [|discriminate].
    destruct (post_groups _ _ _ _) as [groups|]; [|discriminate].
    destruct (decode_attachment _) as [ab an| |e]; try discriminate.
    destruct (post_text data) as [text|]; [|discriminate].
    cbv zeta in H. destruct (commit_ok _ _ _) eqn:Hc; [|discriminate].
    exists obj_id, text, groups, ab, an. repeat split; assumption.
  - intros (obj_id & text & groups & ab & an & -> & -> & -> & -> & Hc).
    cbv zeta. rewrite Hc. eauto.
Qed.

(** ** Creating, then reading *)

Lemma find_app_last_miss (f : Comment.t -> bool) rows c :
  f c = false -> List.find f (rows ++ [c]) = List.find f rows.
Proof.
  intros Hc. induction rows as [|r rows IH]; simpl.
  - now rewrite Hc.
  - destruct (f r); [reflexivity | exact IH].
Qed.

(** A comment that was created is read back as it was posted, by whoever
    the policy lets read it, and the comments that were there before are
    read as before. *)
Theorem post_then_get P author reader data w comment_id w1 :
  (forall r, In r (comments w) -> Comment.id r <> next_comment_id w) ->
  run (post P author data) w = (Ok (Success (CommentId comment_id)), w1) ->
  exists c,
    comment_row w1 comment_id = Some c
    /\ comment_id = next_comment_id w
    /\ Some (Comment.obj_id c) = post_obj_id data
    /\ Comment.text c = post_text data
    /\ Comment.author c = author
    /\ (comment_accessible P reader Read c = true ->
        run (get P reader comment_id) w1 = (Ok (Success (CommentData c)), w1))
    /\ (forall other, other <> comment_id ->
        comment_row w1 other = comment_row w other).
Proof.
  intros Hfresh Hrun.
  destruct (post_success_inv _ _ _ _ _ _ Hrun)
    as (obj_id & text & groups & ab & an & Ho & Ht & _ & _ & Hd & ->).
  injection Hd as ->.
  eexists. split; [apply (post_world_row _ _ _ _ _ _ Hfresh)|].
  split; [reflexivity|]. split; [now rewrite Ho|]. split; [now rewrite Ht|].
  split; [reflexivity|]. split.
  - intros Hacc. rewrite get_cases. unfold fetch.
    now rewrite (post_world_row _ _ _ _ _ _ Hfresh), Hacc.
  - intros other Hne. unfold comment_row, post_world. cbn [comments].
    apply find_app_last_miss. cbn. apply Z.eqb_neq. congruence.
Qed.

Lemma post_then_get_witness :
  exists c,
    comment_row (snd (run (post demo_policy alice mention_request) demo_world)) 2
    = Some c
    /\ 2%Z = next_comment_id demo_world
    /\ Some (Comment.obj_id c) = post_obj_id mention_request
    /\ Comment.text c = post_text mention_request
    /\ Comment.author c = alice
    /\ (comment_accessible demo_policy bob Read c = true ->
        run (get demo_policy bob 2)
            (snd (run (post demo_policy alice mention_request) demo_world))
        = (Ok (Success (CommentData c)),
           snd (run (post demo_policy alice mention_request) demo_world)))
    /\ (forall other, other <> 2%Z ->
        comment_row (snd (run (post demo_policy alice mention_request) demo_world))
                    other
        = comment_row demo_world other).
Proof.
  apply (post_then_get demo_policy alice bob mention_request demo_world).
  - intros r [<- | []]. discriminate.
  - reflexivity.
Defined.

(** ** Mentioning oneself *)

(** The requester is notified of a mention of their own name like anyone
    else: no mentioned user is left out. *)
Theorem post_self_mention_notifies P current_user data w obj_id text d w' :
  post_obj_id data = Some obj_id ->
  post_text data = Some text ->
  In current_user (users w) ->
  mentions text (username current_user) ->
  run (post P current_user data) w = (Ok (Success d), w') ->
  In (mention_notification current_user obj_id current_user) (notifications w')
  /\ In (Push (user_id current_user) FETCH_NOTIFICATIONS) (events w').
Proof.
  intros Ho Ht Hin Hm Hrun.
  destruct (post_success_inv _ _ _ _ _ _ Hrun)
    as (obj_id' & text' & groups & ab & an & Ho' & Ht' & _ & _ & _ & ->).
  rewrite Ho in Ho'. rewrite Ht in Ht'. injection Ho' as <-. injection Ht' as <-.
  assert (In current_user (users_mentioned (users w) text)) as Hu
    by (apply users_mentioned_In; split; assumption).
  unfold post_world, post_events, user_pushes. cbn [notifications events]. split.
  - apply in_or_app. right. now apply in_map.
  - apply in_or_app. right. right. apply in_or_app. left.
    now apply (in_map (fun u => Push (user_id u) FETCH_NOTIFICATIONS)).
Qed.

Lemma post_self_mention_notifies_witness :
  In (mention_notification alice (lit "ZTF21aaa") alice)
     (notifications (snd (run (post demo_policy alice mention_request) demo_world)))
  /\ In (Push (user_id alice) FETCH_NOTIFICATIONS)
        (events (snd (run (post demo_policy alice mention_request) demo_world))).
Proof.
  apply (post_self_mention_notifies demo_policy alice mention_request demo_world
           (lit "ZTF21aaa") (lit "hello @alice, @bob and @nobody")
           (CommentId 2)).
  - reflexivity.
  - reflexivity.
  - left. reflexivity.
  - apply mention_candidates_spec. left. reflexivity.
  - reflexivity.
Defined.

(** ** What the mention extractor finds and what it cannot find *)

Lemma is_token_incl sep s w c : is_token sep s w -> In c w -> In c s.
Proof.
  intros (_ & _ & pre & post & -> & _ & _) Hc.
  apply in_or_app. right. apply in_or_app. now left.
Qed.

Lemma strip_incl chars s c : In c (strip chars s) -> In c s.
Proof.
  intros Hc. destruct (strip_spec chars s) as (a & b & Heq & _).
  rewrite Heq. apply in_or_app. right. apply in_or_app. now left.
Qed.

Lemma In_replace_char_nil c x s :
  In c (replace_char x [] s) <-> In c s /\ c <> x.
Proof.
  unfold replace_char. induction s as [|y s IH]; simpl; [tauto|].
  rewrite in_app_iff, IH. destruct (y =? x) eqn:E.
  - apply N.eqb_eq in E. subst y. simpl. split; [tauto|].
    intros [[-> | H] Hne]; [congruence | tauto].
  - apply N.eqb_neq in E. simpl. split.
    + intros [[<- | []] | [H Hne]]; tauto.
    + intros [[<- | H] Hne]; tauto.
Qed.

Lemma startswith_char_In x s : startswith_char x s = true -> In x s.
Proof.
  destruct s as [|y s]; simpl; [discriminate|].
  intros H. apply N.eqb_eq in H. now left.
Qed.

(** The usernames the extractor can return hold no at-sign, no whitespace
    and no comma: a user whose name has one of these is never returned,
    whatever the text. *)
Theorem mentioned_username_shape directory text u :
  In u (users_mentioned directory text) ->
  ~ In at_sign (username u)
  /\ forall c, In c (username u) -> isspace c = false /\ c <> comma.
Proof.
  intros H. apply users_mentioned_In in H as [_ (token & Htok & _ & Hname)].
  rewrite Hname. split.
  - intros Hin. apply In_replace_char_nil in Hin as [_ Hne]. congruence.
  - intros c Hc. apply In_replace_char_nil in Hc as [Hc _].
    apply strip_incl in Hc.
    destruct Htok as (_ & Hfree & _).
    pose proof (free_of_In _ _ _ Hfree Hc) as Hsep.
    unfold mention_separator in Hsep. apply orb_false_iff in Hsep as [Hs Hcomma].
    split; [exact Hs | now apply N.eqb_neq].
Qed.

Lemma mentioned_username_shape_witness :
  ~ In at_sign (username bob)
  /\ forall c, In c (username bob) -> isspace c = false /\ c <> comma.
Proof.
  apply (mentioned_username_shape [alice; bob]
           (lit "hello @alice, @bob and @nobody") bob).
  right. left. reflexivity.
Defined.

Lemma filter_none {A} (l : list A) : filter (fun _ => false) l = [].
Proof. induction l; simpl; auto. Qed.

(** A text without at-sign mentions nobody. *)
Theorem no_at_sign_no_mention directory text :
  ~ In at_sign text -> users_mentioned directory text = [].
Proof.
  intros Hno. unfold users_mentioned, query_users_by_username.
  assert (mention_candidates text = []) as ->.
  { destruct (mention_candidates text) as [|name rest] eqn:E; [reflexivity|].
    exfalso. apply Hno.
    assert (mentions text name) as (token & Htok & Hstart & _)
      by (apply mention_candidates_spec; rewrite E; now left).
    apply (is_token_incl _ _ _ _ Htok), (strip_incl punctuation).
    now apply startswith_char_In. }
  apply filter_none.
Qed.

Lemma no_at_sign_no_mention_witness :
  users_mentioned [alice; bob] (lit "alice and bob, see the new spectrum") = [].
Proof.
  apply no_at_sign_no_mention. vm_compute. intuition discriminate.
Defined.

Lemma lstrip_exact chars a m :
  all_in chars a = true -> bounded (outside chars) m ->
  lstrip chars (a ++ m) = m.
Proof.
  intros Ha Hm. induction a as [|c a IH]; simpl.
  - destruct m as [|x m]; [reflexivity|]. simpl in *.
    unfold outside in Hm. apply negb_true_iff in Hm. now rewrite Hm.
  - simpl in Ha. apply andb_true_iff in Ha as [Hc Ha].
    rewrite Hc. now apply IH.
Qed.

(** [strip] removes exactly the outer characters of [chars]. *)
Lemma strip_exact chars a m b :
  m <> [] ->
  all_in chars a = true -> all_in chars b = true ->
  bounded (outside chars) m -> bounded (outside chars) (rev m) ->
  strip chars (a ++ m ++ b) = m.
Proof.
  intros Hne Ha Hb Hm Hrm. unfold strip, rstrip.
  rewrite lstrip_exact; [|assumption|].
  - rewrite rev_app_distr, lstrip_exact; [apply rev_involutive| |assumption].
    now rewrite all_in_rev.
  - destruct m; [congruence | exact Hm].
Qed.

Lemma replace_char_absent x s : ~ In x s -> replace_char x [] s = s.
Proof.
  unfold replace_char. induction s as [|y s IH]; simpl; [reflexivity|].
  intros Hno. destruct (y =? x) eqn:E.
  - apply N.eqb_eq in E. tauto.
  - simpl. f_equal. apply IH. tauto.
Qed.

(** A user of the directory is returned when the text has a token made of
    [@] and the username, possibly wrapped in punctuation: parentheses,
    quotes, a full stop.  The username must hold no at-sign and must not end
    with a punctuation character that [strip] would take away. *)
Theorem wrapped_mention_found directory u pre a b post :
  In u directory ->
  ~ In at_sign (username u) ->
  bounded (outside punctuation) (rev (at_sign :: username u)) ->
  all_in punctuation a = true ->
  all_in punctuation b = true ->
  free_of mention_separator (a ++ (at_sign :: username u) ++ b) = true ->
  bounded mention_separator (rev pre) ->
  bounded mention_separator post ->
  In u (users_mentioned directory
          (pre ++ (a ++ (at_sign :: username u) ++ b) ++ post)).
Proof.
  intros Hin Hno Hlast Ha Hb Hfree Hpre Hpost.
  apply users_mentioned_In. split; [exact Hin|].
  exists (a ++ (at_sign :: username u) ++ b).
  assert (strip punctuation (a ++ (at_sign :: username u) ++ b)
          = at_sign :: username u) as Hstrip.
  { apply strip_exact; try assumption; [discriminate | reflexivity]. }
  split; [|split].
  - split; [|split; [exact Hfree|]].
    + intros E. apply app_eq_nil in E as [_ E]. discriminate.
    + exists pre, post. repeat split; assumption.
  - rewrite Hstrip. reflexivity.
  - rewrite Hstrip. unfold replace_char. simpl.
    fold (replace_char at_sign [] (username u)).
    now rewrite replace_char_absent.
Qed.

Lemma wrapped_mention_found_witness :
  In bob (users_mentioned [alice; bob] (lit "thanks (@bob). more soon")).
Proof.
  apply (wrapped_mention_found [alice; bob] bob (lit "thanks ") (lit "(")
           (lit ").") (lit " more soon")).
  - right. left. reflexivity.
  - vm_compute. intuition discriminate.
  - reflexivity.
  - reflexivity.
  - reflexivity.
  - reflexivity.
  - reflexivity.
  - reflexivity.
Defined.

(** ** Attachments that are objects but not as documented *)

(** An attachment object whose [body] is not a string is not turned down as
    malformed: [split] is called on it and the request ends in an
    [AttributeError], with nothing stored. *)
Theorem post_attachment_body_not_text P current_user data w fields v obj_id :
  post_obj_id data = Some obj_id ->
  post_groups P current_user w (post_group_ids data) <> None ->
  post_attachment data = Some (JObj fields) ->
  dict_get (lit "body") fields = Some v ->
  (forall s, v <> JStr s) ->
  dict_has (lit "name") fields = true ->
  decode_attachment (post_attachment data) = DecodeRaised AttributeError
  /\ run (post P current_user data) w = (Raised AttributeError, w).
Proof.
  intros Ho Hg Ha Hb Hv Hn.
  assert (decode_attachment (post_attachment data) = DecodeRaised AttributeError)
    as Hd.
  { rewrite Ha. unfold decode_attachment, dict_has in *. rewrite Hb in *.
    destruct (dict_get (lit "name") fields); [|discriminate]. cbn [andb].
    destruct v; try reflexivity. now contradiction (Hv s). }
  split; [exact Hd|]. rewrite post_cases, Ho, Hd.
  destruct (post_groups _ _ _ _); [reflexivity | congruence].
Qed.

Lemma post_attachment_body_not_text_witness :
  decode_attachment
    (Some (JObj [(lit "body", JNum 42); (lit "name", JStr (lit "note.txt"))]))
  = DecodeRaised AttributeError
  /\ run (post demo_policy alice
            (mkPostData (Some (lit "ZTF21aaa")) (Some (lit "see file")) None
               (Some (JObj [(lit "body", JNum 42);
                            (lit "name", JStr (lit "note.txt"))]))))
         demo_world
     = (Raised AttributeError, demo_world).
Proof.
  apply (post_attachment_body_not_text demo_policy alice
           (mkPostData (Some (lit "ZTF21aaa")) (Some (lit "see file")) None
              (Some (JObj [(lit "body", JNum 42);
                           (lit "name", JStr (lit "note.txt"))])))
           demo_world
           [(lit "body", JNum 42); (lit "name", JStr (lit "note.txt"))]
           (JNum 42) (lit "ZTF21aaa")).
  - reflexivity.
  - discriminate.
  - reflexivity.
  - reflexivity.
  - discriminate.
  - reflexivity.
Defined.

Lemma jointly_null_set_text v c :
  jointly_null (Comment.set_text v c) = jointly_null c.
Proof. reflexivity. Qed.

(** Create does not check the pairing that update checks.  An attachment
    whose [name] is null is stored with its bytes, and the comment is then
    one that [put] refuses to save again: any later update that leaves the
    attachment fields alone is answered with the consistency error. *)
Theorem post_null_name_breaks_pairing P author data w fields body d w1 :
  (forall r, In r (comments w) -> Comment.id r <> next_comment_id w) ->
  post_attachment data = Some (JObj fields) ->
  dict_get (lit "body") fields = Some (JStr body) ->
  dict_get (lit "name") fields = Some JNull ->
  run (post P author data) w = (Ok (Success d), w1) ->
  exists comment_id c,
    d = CommentId comment_id
    /\ comment_row w1 comment_id = Some c
    /\ Comment.attachment_bytes c <> None
    /\ Comment.attachment_name c = JNull
    /\ jointly_null c = false
    /\ (forall editor data',
           comment_accessible P editor Update c = true ->
           schema_errors P data' = None ->
           put_attachment_bytes data' = None ->
           put_attachment_name data' = None ->
           run (put P editor comment_id data') w1
           = (Ok AttachmentConsistencyError, w1)).
Proof.
  intros Hfresh Ha Hb Hn Hrun.
  destruct (post_success_inv _ _ _ _ _ _ Hrun)
    as (obj_id & text & groups & ab & an & _ & _ & _ & Hdec & -> & ->).
  rewrite Ha, (decode_attachment_well_formed _ _ _ Hb Hn) in Hdec.
  destruct (Utf8.encode (after_base64_marker body)) as [stored|];
    [|discriminate].
  injection Hdec as <- <-.
  pose proof (post_world_row P author w obj_id
                (new_comment author obj_id (Some text) (Some stored) JNull groups)
                (users_mentioned (users w) text) Hfresh) as Hrow.
  eexists (next_comment_id w), _.
  split; [reflexivity|]. split; [exact Hrow|].
  split; [discriminate|]. split; [reflexivity|]. split; [reflexivity|].
  intros editor data' Hacc Hs Hbytes Hname.
  rewrite put_cases. unfold fetch. rewrite Hrow, Hacc, Hs.
  unfold resulting_state, schema_load. rewrite Hs, Hbytes, Hname.
  destruct (put_text data'); reflexivity.
Qed.

Lemma post_null_name_breaks_pairing_witness :
  exists comment_id c,
    CommentId 2 = CommentId comment_id
    /\ comment_row
         (snd (run (post demo_policy alice
                      (mkPostData (Some (lit "ZTF21aaa")) (Some (lit "see file"))
                         None
                         (Some (JObj [(lit "body", JStr (lit "aGk="));
                                      (lit "name", JNull)]))))
                   demo_world)) comment_id = Some c
    /\ Comment.attachment_bytes c <> None
    /\ Comment.attachment_name c = JNull
    /\ jointly_null c = false
    /\ (forall editor data',
           comment_accessible demo_policy editor Update c = true ->
           schema_errors demo_policy data' = None ->
           put_attachment_bytes data' = None ->
           put_attachment_name data' = None ->
           run (put demo_policy editor comment_id data')
               (snd (run (post demo_policy alice
                            (mkPostData (Some (lit "ZTF21aaa"))
                               (Some (lit "see file")) None
                               (Some (JObj [(lit "body", JStr (lit "aGk="));
                                            (lit "name", JNull)]))))
                         demo_world))
           = (Ok AttachmentConsistencyError,
              snd (run (post demo_policy alice
                          (mkPostData (Some (lit "ZTF21aaa"))
                             (Some (lit "see file")) None
                             (Some (JObj [(lit "body", JStr (lit "aGk="));
                                          (lit "name", JNull)]))))
                       demo_world))).
Proof.
  apply (post_null_name_breaks_pairing demo_policy alice
           (mkPostData (Some (lit "ZTF21aaa")) (Some (lit "see file")) None
              (Some (JObj [(lit "body", JStr (lit "aGk=")); (lit "name", JNull)])))
           demo_world
           [(lit "body", JStr (lit "aGk=")); (lit "name", JNull)]
           (lit "aGk=") (CommentId 2)).
  - intros r [<- | []]. discriminate.
  - reflexivity.
  - reflexivity.
  - reflexivity.
  - reflexivity.
Defined.

Lemma encode_char_None c :
  c < 1114112 ->
  (Utf8.encode_char c = None <-> 55296 <= c <= 57343).
Proof.
  intros Hc. unfold Utf8.encode_char.
  destruct (c <? 128) eqn:E1; [apply N.ltb_lt in E1; split; [discriminate | lia]|].
  destruct (c <? 2048) eqn:E2; [apply N.ltb_lt in E2; split; [discriminate | lia]|].
  apply N.ltb_ge in E1, E2.
  destruct (c <? 65536) eqn:E3.
  - destruct ((55296 <=? c) && (c <=? 57343)) eqn:E4.
    + apply andb_true_iff in E4 as [H1 H2].
      apply N.leb_le in H1, H2. split; [lia | reflexivity].
    + split; [discriminate|]. intros [H1 H2].
      apply N.leb_le in H1, H2. rewrite H1, H2 in E4. discriminate.
  - apply N.ltb_ge in E3.
    apply N.ltb_lt in Hc. rewrite Hc. apply N.ltb_lt in Hc.
    split; [discriminate | lia].
Qed.

Lemma encode_None s :
  Utf8.encode s = None <-> exists c, In c s /\ Utf8.encode_char c = None.
Proof.
  induction s as [|c s IH]; simpl.
  - split; [discriminate | intros (c & [] & _)].
  - destruct (Utf8.encode_char c) as [b|] eqn:E.
    + destruct (Utf8.encode s) as [bs|].
      * split; [discriminate|]. intros (x & [<- | Hx] & Hn); [congruence|].
        assert (Some bs = None) as H by (apply IH; eauto). discriminate.
      * split; [|reflexivity]. intros _.
        destruct (proj1 IH eq_refl) as (x & Hx & Hn). eauto.
    + split; [|reflexivity]. intros _. exists c. split; [now left | exact E].
Qed.

(** The text kept of an attachment body is encoded as UTF-8, which has no
    form for a lone surrogate: create ends in a [UnicodeEncodeError], with
    nothing stored, exactly when the text after the marker holds one. *)
Theorem post_attachment_surrogate P current_user data w fields body name obj_id :
  (forall c, In c body -> c < 1114112) ->
  post_obj_id data = Some obj_id ->
  post_groups P current_user w (post_group_ids data) <> None ->
  post_attachment data = Some (JObj fields) ->
  dict_get (lit "body") fields = Some (JStr body) ->
  dict_get (lit "name") fields = Some name ->
  (run (post P current_user data) w = (Raised UnicodeEncodeError, w) <->
   exists c, In c (after_base64_marker body) /\ 55296 <= c <= 57343).
Proof.
  intros Hvalid Ho Hg Ha Hb Hn.
  destruct (after_marker_spec body) as (pre & Hbody & _).
  assert (forall c, In c (after_base64_marker body) -> c < 1114112) as Hkept.
  { intros c Hc. apply Hvalid. rewrite Hbody. apply in_or_app. now right. }
  rewrite post_cases, Ho, Ha, (decode_attachment_well_formed _ _ _ Hb Hn).
  destruct (post_groups _ _ _ _) as [groups|]; [|congruence].
  destruct (Utf8.encode (after_base64_marker body)) as [stored|] eqn:E.
  - split.
    + intros H. exfalso. destruct (post_text data); [|discriminate].
      cbv zeta in H. destruct (commit_ok _ _ _); discriminate.
    + intros (c & Hc & Hs). exfalso.
      assert (Utf8.encode (after_base64_marker body) = None) as E'.
      { apply encode_None. exists c. split; [exact Hc|].
        apply encode_char_None; [now apply Hkept | exact Hs]. }
      congruence.
  - split; [|reflexivity]. intros _.
    apply encode_None in E as (c & Hc & Hn').
    exists c. split; [exact Hc|].
    now apply encode_char_None; [apply Hkept|].
Qed.

Lemma post_attachment_surrogate_witness :
  run (post demo_policy alice
         (mkPostData (Some (lit "ZTF21aaa")) (Some (lit "see file")) None
            (Some (JObj [(lit "body", JStr (lit "base64," ++ [55357]));
                         (lit "name", JStr (lit "note.txt"))]))))
      demo_world
  = (Raised UnicodeEncodeError, demo_world) <->
  exists c, In c (after_base64_marker (lit "base64," ++ [55357]))
            /\ 55296 <= c <= 57343.
Proof.
  apply (post_attachment_surrogate demo_policy alice
           (mkPostData (Some (lit "ZTF21aaa")) (Some (lit "see file")) None
              (Some (JObj [(lit "body", JStr (lit "base64," ++ [55357]));
                           (lit "name", JStr (lit "note.txt"))])))
           demo_world
           [(lit "body", JStr (lit "base64," ++ [55357]));
            (lit "name", JStr (lit "note.txt"))]
           (lit "base64," ++ [55357]) (JStr (lit "note.txt")) (lit "ZTF21aaa")).
  - intros c Hc. vm_compute in Hc.
    repeat (destruct Hc as [<- | Hc]; [reflexivity|]). destruct Hc.
  - reflexivity.
  - discriminate.
  - reflexivity.
  - reflexivity.
  - reflexivity.
Defined.

(** ** What an update leaves alone *)

Lemma put_world_other_row P w c2 other :
  other <> Comment.id c2 ->
  comment_row (put_world P w c2) other = comment_row w other.
Proof.
  intros Hne. unfold comment_row, put_world, replace_row. cbn [comments].
  induction (comments w) as [|r rows IH]; [reflexivity|]. simpl.
  destruct (Comment.id c2 =? Comment.id r)%Z eqn:E.
  - apply Z.eqb_eq in E.
    replace (Comment.id c2 =? other)%Z with false
      by (symmetry; apply Z.eqb_neq; congruence).
    replace (Comment.id r =? other)%Z with false
      by (symmetry; apply Z.eqb_neq; congruence).
    exact IH.
  - destruct (Comment.id r =? other)%Z; [reflexivity | exact IH].
Qed.

Lemma put_success_id P current_user comment_id data w d w' :
  run (put P current_user comment_id data) w = (Ok (Success d), w') ->
  exists c2, w' = put_world P w c2 /\ Comment.id c2 = comment_id.
Proof.
  intros Hrun.
  destruct (put_success_inv _ _ _ _ _ _ _ Hrun)
    as (c & c1 & c2 & Hf & _ & Hr & _ & Hg & ->).
  destruct (fetch_row _ _ _ _ _ _ Hf) as [_ Hid].
  destruct (resulting_state_fields _ _ _ _ Hr) as (Hid1 & _).
  exists c2. split; [reflexivity|].
  destruct (put_group_ids data).
  - destruct Hg as (gs & _ & ->). cbn. congruence.
  - subst c2. congruence.
Qed.

(** An update never notifies anyone and touches one comment only: whatever
    the request, even when the new text mentions users, the notifications
    are as before, no push to a user is added, and every other comment is
    read as before. *)
Theorem put_notifies_nobody P current_user comment_id data w :
  notifications (snd (run (put P current_user comment_id data) w))
  = notifications w
  /\ filter is_user_push (events (snd (run (put P current_user comment_id data) w)))
     = filter is_user_push (events w)
  /\ forall other, other <> comment_id ->
       comment_row (snd (run (put P current_user comment_id data) w)) other
       = comment_row w other.
Proof.
  destruct (run (put P current_user comment_id data) w) as [r w'] eqn:Hrun.
  cbn [snd].
  assert ((exists d, r = Ok (Success d)) \/ (forall d, r <> Ok (Success d)))
    as [[d ->] | Hr].
  { destruct r as [[d| |]|e]; [left; eauto | right; discriminate ..]. }
  - destruct (put_success_id _ _ _ _ _ _ _ Hrun) as (c2 & -> & Hid).
    split; [reflexivity|]. split.
    + unfold put_world. cbn [events]. rewrite filter_app. cbn.
      now rewrite app_nil_r.
    + intros other Hne. apply put_world_other_row. congruence.
  - rewrite (put_failure_no_effect _ _ _ _ _ _ _ Hrun Hr). auto.
Qed.

(** ** Updating an attachment, then reading it *)

(** The round trip holds through an update as through a create: bytes sent
    in [attachment_bytes] as base64 text, with or without a data-URL prefix,
    are written back unchanged by a download. *)
Theorem put_attachment_round_trip P editor reader comment_id data w B prefix
    download_arg d w1 :
  prefix = [] \/ (exists q, prefix = q ++ lit "base64,") ->
  put_attachment_bytes data = Some (prefix ++ Base64.b64encode B) ->
  run (put P editor comment_id data) w = (Ok (Success d), w1) ->
  exists c,
    comment_row w1 comment_id = Some c
    /\ Comment.attachment_bytes c = Some (map to_byte (Base64.b64encode B))
    /\ (comment_accessible P reader Read c = true ->
        commit_ok P w1 empty_session = true ->
        download_flag download_arg = Some true ->
        run (attachment_get P reader comment_id download_arg) w1
        = (Ok (Written (download_headers c) B), committed w1)).
Proof.
  intros Hp Hb Hrun.
  destruct (put_success_inv _ _ _ _ _ _ _ Hrun)
    as (c & c1 & c2 & Hf & _ & Hr & _ & Hg & ->).
  destruct (fetch_row _ _ _ _ _ _ Hf) as [Hrow Hid].
  destruct (resulting_state_fields _ _ _ _ Hr) as (Hid1 & _ & _ & Hbytes).
  rewrite Hb, (b64encode_kept _ _ Hp) in Hbytes.
  assert (Comment.id c2 = Comment.id c
          /\ Comment.attachment_bytes c2 = Comment.attachment_bytes c1)
    as [Hid2 Hb2].
  { destruct (put_group_ids data).
    - destruct Hg as (gs & _ & ->). split; [exact Hid1 | reflexivity].
    - subst c2. split; [exact Hid1 | reflexivity]. }
  pose proof (put_world_row P w comment_id c c2 Hrow Hid2) as Hrow2.
  exists c2. split; [exact Hrow2|]. split; [congruence|].
  intros Hacc Hcommit Hflag.
  rewrite attachment_get_cases, Hflag. unfold fetch.
  rewrite Hrow2, Hacc, Hcommit, Hb2, <- Hbytes.
  now rewrite Base64Facts.a2b_b64encode.
Qed.

Lemma put_attachment_round_trip_witness :
  exists c,
    comment_row (snd (run (put demo_policy alice 1 attach_request) demo_world)) 1
    = Some c
    /\ Comment.attachment_bytes c
       = Some (map to_byte (Base64.b64encode [to_byte 104; to_byte 105]))
    /\ (comment_accessible demo_policy alice Read c = true ->
        commit_ok demo_policy
          (snd (run (put demo_policy alice 1 attach_request) demo_world))
          empty_session = true ->
        download_flag None = Some true ->
        run (attachment_get demo_policy alice 1 None)
            (snd (run (put demo_policy alice 1 attach_request) demo_world))
        = (Ok (Written (download_headers c) [to_byte 104; to_byte 105]),
           committed (snd (run (put demo_policy alice 1 attach_request)
                                demo_world)))).
Proof.
  apply (put_attachment_round_trip demo_policy alice alice 1%Z attach_request
           demo_world [to_byte 104; to_byte 105] [] None NoData).
  - left. reflexivity.
  - reflexivity.
  - reflexivity.
Defined.

(** ** Deleting a comment *)

Lemma delete_world_row P w c :
  comment_row (delete_world P w c) (Comment.id c) = None.
Proof.
  unfold comment_row, delete_world. cbn [comments].
  induction (comments w) as [|r rows IH]; [reflexivity|]. simpl.
  destruct (Comment.id c =? Comment.id r)%Z eqn:E; simpl; [exact IH|].
  rewrite Z.eqb_sym, E. exact IH.
Qed.

Lemma delete_world_other_row P w c other :
  other <> Comment.id c ->
  comment_row (delete_world P w c) other = comment_row w other.
Proof.
  intros Hne. unfold comment_row, delete_world. cbn [comments].
  induction (comments w) as [|r rows IH]; [reflexivity|]. simpl.
  destruct (Comment.id c =? Comment.id r)%Z eqn:E; simpl.
  - apply Z.eqb_eq in E.
    replace (Comment.id r =? other)%Z with false
      by (symmetry; apply Z.eqb_neq; congruence).
    exact IH.
  - destruct (Comment.id r =? other)%Z; [reflexivity | exact IH].
Qed.

(** A delete that succeeds removes the comment for every reader and nothing
    else: the other comments and all notifications stay, the only events are
    the commit and one broadcast refresh for the object of the comment.  A
    delete that does not succeed changes nothing. *)
Theorem delete_removes_one_comment P current_user comment_id w r w' :
  run (delete P current_user comment_id) w = (r, w') ->
  ((exists d, r = Ok (Success d)) ->
   exists c,
     comment_row w comment_id = Some c
     /\ comment_row w' comment_id = None
     /\ (forall other, other <> comment_id ->
           comment_row w' other = comment_row w other)
     /\ notifications w' = notifications w
     /\ events w' = events w
          ++ [Committed;
              PushAll REFRESH_SOURCE (internal_key P (Comment.obj_id c))]
     /\ (forall reader,
           run (get P reader comment_id) w' = (Raised NotFoundOrForbidden, w')))
  /\ ((forall d, r <> Ok (Success d)) -> w' = w).
Proof.
  rewrite delete_cases. intros Hrun.
  destruct (fetch P current_user Delete w comment_id) as [c|] eqn:Hf.
  - destruct (fetch_row _ _ _ _ _ _ Hf) as [Hrow Hid].
    destruct (commit_ok P w _); injection Hrun as <- <-.
    + split; [|intros H; now contradiction (H NoData)].
      intros _. exists c. split; [exact Hrow|].
      split; [rewrite <- Hid; apply delete_world_row|].
      split; [intros other Hne; apply delete_world_other_row; congruence|].
      split; [reflexivity|]. split; [reflexivity|].
      intros reader. rewrite get_cases. unfold fetch.
      rewrite <- Hid at 1. now rewrite delete_world_row.
    + split; [intros [d H]; discriminate | reflexivity].
  - injection Hrun as <- <-.
    split; [intros [d H]; discriminate | reflexivity].
Qed.

Lemma delete_removes_one_comment_witness :
  ((exists d, fst (run (delete demo_policy alice 1) demo_world) = Ok (Success d)) ->
   exists c,
     comment_row demo_world 1 = Some c
     /\ comment_row (snd (run (delete demo_policy alice 1) demo_world)) 1 = None
     /\ (forall other, other <> 1%Z ->
           comment_row (snd (run (delete demo_policy alice 1) demo_world)) other
           = comment_row demo_world other)
     /\ notifications (snd (run (delete demo_policy alice 1) demo_world))
        = notifications demo_world
     /\ events (snd (run (delete demo_policy alice 1) demo_world))
        = events demo_world
          ++ [Committed;
              PushAll REFRESH_SOURCE
                (internal_key demo_policy (Comment.obj_id c))]
     /\ (forall reader,
           run (get demo_policy reader 1)
               (snd (run (delete demo_policy alice 1) demo_world))
           = (Raised NotFoundOrForbidden,
              snd (run (delete demo_policy alice 1) demo_world))))
  /\ ((forall d, fst (run (delete demo_policy alice 1) demo_world)
                 <> Ok (Success d)) ->
      snd (run (delete demo_policy alice 1) demo_world) = demo_world).
Proof.
  apply (delete_removes_one_comment demo_policy alice 1%Z demo_world).
  reflexivity.
Defined.

(** ** Reading does not write *)

(** Fetching an attachment never changes a comment or a notification and
    never pushes; an argument [download] that is not a truth value ends the
    request in a [ValueError] before the comment is looked up. *)
Theorem attachment_get_read_only P current_user comment_id download_arg w :
  comments (snd (run (attachment_get P current_user comment_id download_arg) w))
  = comments w
  /\ notifications
       (snd (run (attachment_get P current_user comment_id download_arg) w))
     = notifications w
  /\ filter (fun e => is_user_push e || is_broadcast e)
       (events (snd (run (attachment_get P current_user comment_id download_arg) w)))
     = filter (fun e => is_user_push e || is_broadcast e) (events w)
  /\ (download_flag download_arg = None ->
      run (attachment_get P current_user comment_id download_arg) w
      = (Raised ValueError, w)).
Proof.
  rewrite attachment_get_cases.
  assert (filter (fun e => is_user_push e || is_broadcast e) (events (committed w))
          = filter (fun e => is_user_push e || is_broadcast e) (events w)) as Hev.
  { unfold committed. cbn [events]. rewrite filter_app. cbn. apply app_nil_r. }
  destruct (download_flag download_arg) as [download|];
    [|repeat split; reflexivity].
  destruct (fetch _ _ _ _ _) as [c|];
    [|repeat split; try reflexivity; discriminate].
  destruct (commit_ok P w empty_session);
    [|repeat split; try reflexivity; discriminate].
  destruct (Comment.attachment_bytes c) as [data|];
    [|repeat split; try reflexivity; try exact Hev; discriminate].
  destruct (Base64.a2b_base64 data 0 0 0) as [raw|];
    [|repeat split; try reflexivity; try exact Hev; discriminate].
  destruct download;
    [repeat split; try reflexivity; try exact Hev; discriminate|].
  destruct (Utf8.decode raw);
    repeat split; try reflexivity; try exact Hev; discriminate.
Qed.

(** ** UTF-8 *)

Module Utf8Facts.

Ltac euclid := zify; Z.to_euclidean_division_equations; lia.

Lemma lor_shiftl_add a b k : b < 2 ^ k -> N.lor (N.shiftl a k) b = a * 2 ^ k + b.
Proof.
  intros Hb. rewrite N.shiftl_mul_pow2.
  assert (N.land (a * 2 ^ k) b = 0) as H.
  { apply N.bits_inj. intros n. rewrite N.land_spec, N.bits_0.
    destruct (N.lt_ge_cases n k).
    - now rewrite N.mul_pow2_bits_low.
    - rewrite <- (N.mod_small b (2 ^ k)) by assumption.
      rewrite N.mod_pow2_bits_high by assumption. apply andb_false_r. }
  rewrite <- N.lxor_lor by assumption. symmetry. now apply N.add_nocarry_lxor.
Qed.

Lemma lor_lead lead k x :
  x < 2 ^ k -> N.lor (N.shiftl lead k) x = lead * 2 ^ k + x.
Proof. apply lor_shiftl_add. Qed.

Lemma land_mod c k : N.land c (N.ones k) = c mod 2 ^ k.
Proof. apply N.land_ones. Qed.

Lemma land63 c : N.land c 63 = c mod 64.
Proof. exact (N.land_ones c 6). Qed.
Lemma land31 c : N.land c 31 = c mod 32.
Proof. exact (N.land_ones c 5). Qed.
Lemma land15 c : N.land c 15 = c mod 16.
Proof. exact (N.land_ones c 4). Qed.
Lemma land7 c : N.land c 7 = c mod 8.
Proof. exact (N.land_ones c 3). Qed.

Lemma shr6 c : N.shiftr c 6 = c / 64.
Proof. exact (N.shiftr_div_pow2 c 6). Qed.
Lemma shr12 c : N.shiftr c 12 = c / 4096.
Proof. exact (N.shiftr_div_pow2 c 12). Qed.
Lemma shr18 c : N.shiftr c 18 = c / 262144.
Proof. exact (N.shiftr_div_pow2 c 18). Qed.

Lemma join6 hi lo : lo < 64 -> N.lor (N.shiftl hi 6) lo = hi * 64 + lo.
Proof. exact (lor_shiftl_add hi lo 6). Qed.
Lemma join12 hi lo : lo < 4096 -> N.lor (N.shiftl hi 12) lo = hi * 4096 + lo.
Proof. exact (lor_shiftl_add hi lo 12). Qed.
Lemma join18 hi lo : lo < 262144 -> N.lor (N.shiftl hi 18) lo = hi * 262144 + lo.
Proof. exact (lor_shiftl_add hi lo 18). Qed.

Lemma lead128 x : x < 64 -> N.lor 128 x = 128 + x.
Proof. exact (lor_shiftl_add 2 x 6). Qed.
Lemma lead192 x : x < 32 -> N.lor 192 x = 192 + x.
Proof. exact (lor_shiftl_add 6 x 5). Qed.
Lemma lead224 x : x < 16 -> N.lor 224 x = 224 + x.
Proof. exact (lor_shiftl_add 14 x 4). Qed.
Lemma lead240 x : x < 8 -> N.lor 240 x = 240 + x.
Proof. exact (lor_shiftl_add 30 x 3). Qed.

Lemma ltb_false a b : b <= a -> (a <? b) = false.
Proof. apply N.ltb_ge. Qed.
Lemma within lo hi a : lo <= a <= hi -> (lo <=? a) && (a <=? hi) = true.
Proof. intros [H1 H2]. apply andb_true_iff. split; now apply N.leb_le. Qed.
Lemma without lo hi a : a < lo \/ hi < a -> (lo <=? a) && (a <=? hi) = false.
Proof.
  intros [H | H].
  - apply andb_false_iff. left. now apply N.leb_gt.
  - apply andb_false_iff. right. now apply N.leb_gt.
Qed.

Lemma decode_unfold b0 r0 :
  Utf8.decode (b0 :: r0) =
      let n0 := Byte.to_N b0 in
      if n0 <? 128 then option_map (cons n0) (Utf8.decode r0)
      else if (194 <=? n0) && (n0 <=? 223) then
        match r0 with
        | b1 :: r1 =>
            match Utf8.continuation b1 with
            | Some c1 =>
                option_map (cons (N.lor (N.shiftl (N.land n0 31) 6) c1)) (Utf8.decode r1)
            | None => None
            end
        | _ => None
        end
      else if (224 <=? n0) && (n0 <=? 239) then
        match r0 with
        | b1 :: b2 :: r2 =>
            match Utf8.continuation b1, Utf8.continuation b2 with
            | Some c1, Some c2 =>
                let cp := N.lor (N.shiftl (N.land n0 15) 12) (N.lor (N.shiftl c1 6) c2) in
                if (cp <? 2048) || ((55296 <=? cp) && (cp <=? 57343)) then None
                else option_map (cons cp) (Utf8.decode r2)
            | _, _ => None
            end
        | _ => None
        end
      else if (240 <=? n0) && (n0 <=? 244) then
        match r0 with
        | b1 :: b2 :: b3 :: r3 =>
            match Utf8.continuation b1, Utf8.continuation b2, Utf8.continuation b3 with
            | Some c1, Some c2, Some c3 =>
                let cp := N.lor (N.shiftl (N.land n0 7) 18)
                            (N.lor (N.shiftl c1 12) (N.lor (N.shiftl c2 6) c3)) in
                if (cp <? 65536) || (1114111 <? cp) then None
                else option_map (cons cp) (Utf8.decode r3)
            | _, _, _ => None
            end
        | _ => None
        end
      else None.
Proof. reflexivity. Qed.

Lemma continuation_byte y :
  y < 64 -> Utf8.continuation (to_byte (N.lor 128 y)) = Some y.
Proof.
  intros Hy. rewrite lead128 by assumption. unfold Utf8.continuation.
  rewrite to_N_to_byte by lia. rewrite within by lia.
  f_equal. rewrite land63. euclid.
Qed.

Lemma decode_encode_char c b rest :
  Utf8.encode_char c = Some b ->
  Utf8.decode (b ++ rest) = option_map (cons c) (Utf8.decode rest).
Proof.
  unfold Utf8.encode_char.
  destruct (N.ltb_spec c 128) as [H1|H1].
  { intros H. assert (b = [to_byte c]) as -> by congruence.
    cbn [app]. rewrite decode_unfold. cbv zeta.
    rewrite to_N_to_byte by lia.
    destruct (N.ltb_spec c 128); [reflexivity | lia]. }
  destruct (N.ltb_spec c 2048) as [H2|H2].
  { intros H.
    assert (b = [to_byte (N.lor 192 (N.shiftr c 6));
                 to_byte (N.lor 128 (N.land c 63))]) as -> by congruence.
    clear H. cbn [app]. rewrite decode_unfold. cbv zeta.
    rewrite continuation_byte by (rewrite land63; euclid).
    rewrite shr6, lead192 by euclid.
    rewrite to_N_to_byte by euclid.
    rewrite ltb_false by euclid. rewrite within by euclid.
    rewrite land31, land63, join6 by euclid.
    do 2 f_equal. euclid. }
  destruct (N.ltb_spec c 65536) as [H3|H3].
  { destruct ((55296 <=? c) && (c <=? 57343)) eqn:Hsur; [discriminate|].
    intros H.
    assert (b = [to_byte (N.lor 224 (N.shiftr c 12));
                 to_byte (N.lor 128 (N.land (N.shiftr c 6) 63));
                 to_byte (N.lor 128 (N.land c 63))]) as -> by congruence.
    clear H. cbn [app]. rewrite decode_unfold. cbv zeta.
    rewrite !continuation_byte by (rewrite land63; euclid).
    rewrite shr12, shr6, lead224 by euclid.
    rewrite to_N_to_byte by euclid.
    rewrite ltb_false by euclid. rewrite without by (right; euclid).
    rewrite within by euclid.
    rewrite land15, !land63, join6, join12 by euclid.
    replace ((224 + c / 4096) mod 16 * 4096 + (c / 64 mod 64 * 64 + c mod 64))
      with c by euclid.
    rewrite ltb_false, Hsur by lia. reflexivity. }
  destruct (N.ltb_spec c 1114112) as [H4|H4]; [|discriminate].
  intros H.
  assert (b = [to_byte (N.lor 240 (N.shiftr c 18));
               to_byte (N.lor 128 (N.land (N.shiftr c 12) 63));
               to_byte (N.lor 128 (N.land (N.shiftr c 6) 63));
               to_byte (N.lor 128 (N.land c 63))]) as -> by congruence.
  clear H. cbn [app]. rewrite decode_unfold. cbv zeta.
  rewrite !continuation_byte by (rewrite land63; euclid).
  rewrite shr18, shr12, shr6, lead240 by euclid.
  rewrite to_N_to_byte by euclid.
  rewrite ltb_false by euclid. rewrite !without by (right; euclid).
  rewrite within by euclid.
  rewrite land7, !land63, join6, join12, join18 by euclid.
  replace ((240 + c / 262144) mod 8 * 262144
           + (c / 4096 mod 64 * 4096 + (c / 64 mod 64 * 64 + c mod 64)))
    with c by euclid.
  rewrite ltb_false by lia.
  replace (1114111 <? c) with false by (symmetry; apply N.ltb_ge; lia).
  reflexivity.
Qed.

Lemma decode_encode s b : Utf8.encode s = Some b -> Utf8.decode b = Some s.
Proof.
  revert b. induction s as [|c s IH]; intros b; simpl.
  - intros H; injection H as <-. reflexivity.
  - destruct (Utf8.encode_char c) as [bc|] eqn:Ec; [|discriminate].
    destruct (Utf8.encode s) as [bs|]; [|discriminate].
    intros H; injection H as <-.
    rewrite (decode_encode_char _ _ _ Ec), (IH bs eq_refl). reflexivity.
Qed.

End Utf8Facts.

(** ** Reading an attachment as text *)

(** A text attached as the base64 form of its UTF-8 bytes is read back as
    that text by a fetch that is not a download. *)
Theorem attachment_inline_round_trip P author reader data w text B prefix name
    fields download_arg d w1 :
  Utf8.encode text = Some B ->
  prefix = [] \/ (exists q, prefix = q ++ lit "base64,") ->
  post_attachment data = Some (JObj fields) ->
  dict_get (lit "body") fields = Some (JStr (prefix ++ Base64.b64encode B)) ->
  dict_get (lit "name") fields = Some name ->
  (forall c, In c (comments w) -> Comment.id c <> next_comment_id w) ->
  run (post P author data) w = (Ok (Success d), w1) ->
  exists comment_id c,
    d = CommentId comment_id
    /\ comment_row w1 comment_id = Some c
    /\ (comment_accessible P reader Read c = true ->
        commit_ok P w1 empty_session = true ->
        download_flag download_arg = Some false ->
        run (attachment_get P reader comment_id download_arg) w1
        = (Ok (Success (AttachmentData comment_id text)), committed w1)).
Proof.
  intros Htext Hp Ha Hb Hn Hfresh Hrun.
  destruct (post_success_inv _ _ _ _ _ _ Hrun)
    as (obj_id & text' & groups & ab & an & _ & _ & _ & Hdec & -> & ->).
  rewrite Ha, (decode_attachment_well_formed _ _ _ Hb Hn) in Hdec.
  rewrite (b64encode_kept _ _ Hp) in Hdec. injection Hdec as <- <-.
  eexists (next_comment_id w), _.
  split; [reflexivity|].
  split; [apply (post_world_row _ _ _ _ _ _ Hfresh)|].
  intros Hacc Hcommit Hflag.
  rewrite attachment_get_cases, Hflag. unfold fetch.
  rewrite (post_world_row _ _ _ _ _ _ Hfresh), Hacc, Hcommit.
  cbn [Comment.attachment_bytes Comment.set_id new_comment].
  rewrite Base64Facts.a2b_b64encode.
  now rewrite (Utf8Facts.decode_encode _ _ Htext).
Qed.

Lemma attachment_inline_round_trip_witness :
  exists comment_id c,
    CommentId 2 = CommentId comment_id
    /\ comment_row (snd (run (post demo_policy alice attachment_request) demo_world))
         comment_id = Some c
    /\ (comment_accessible demo_policy bob Read c = true ->
        commit_ok demo_policy
          (snd (run (post demo_policy alice attachment_request) demo_world))
          empty_session = true ->
        download_flag (Some (lit "False")) = Some false ->
        run (attachment_get demo_policy bob comment_id (Some (lit "False")))
            (snd (run (post demo_policy alice attachment_request) demo_world))
        = (Ok (Success (AttachmentData comment_id (lit "hi"))),
           committed (snd (run (post demo_policy alice attachment_request)
                                demo_world)))).
Proof.
  apply (attachment_inline_round_trip demo_policy alice bob attachment_request
           demo_world (lit "hi") [to_byte 104; to_byte 105]
           (lit "data:text/plain;base64,") (JStr (lit "note.txt"))
           [(lit "body", JStr (lit "data:text/plain;base64,aGk="));
            (lit "name", JStr (lit "note.txt"))]
           (Some (lit "False")) (CommentId 2)).
  - reflexivity.
  - right. exists (lit "data:text/plain;"). reflexivity.
  - reflexivity.
  - reflexivity.
  - reflexivity.
  - intros c [<- | []]. discriminate.
  - reflexivity.
Defined.

Lemma put_notifies_nobody_witness :
  notifications (snd (run (put demo_policy alice 1
                             (mkPutData None None (Some (Some (lit "thanks @bob")))
                                        None)) demo_world))
  = notifications demo_world
  /\ filter is_user_push
       (events (snd (run (put demo_policy alice 1
                            (mkPutData None None (Some (Some (lit "thanks @bob")))
                                       None)) demo_world)))
     = filter is_user_push (events demo_world)
  /\ comment_row (snd (run (put demo_policy alice 1
                              (mkPutData None None (Some (Some (lit "thanks @bob")))
                                         None)) demo_world)) 5
     = comment_row demo_world 5.
Proof.
  destruct (put_notifies_nobody demo_policy alice 1%Z
              (mkPutData None None (Some (Some (lit "thanks @bob"))) None)
              demo_world) as (Hn & He & Hrows).
  split; [exact Hn|]. split; [exact He|]. apply Hrows. discriminate.
Defined.

Lemma attachment_get_read_only_witness :
  run (attachment_get demo_policy alice 1 (Some (lit "maybe"))) demo_world
  = (Raised ValueError, demo_world).
Proof.
  destruct (attachment_get_read_only demo_policy alice 1%Z (Some (lit "maybe"))
              demo_world) as (_ & _ & _ & H).
  apply H. reflexivity.
Defined.
